(** * Book exchange: a shallow embedding of [app.py]

    The Flask application is modelled as a transition system over the
    contents of the SQLite database and the login session.  Each view
    function of [app.py] becomes a function from a request and a world to
    a new world and a response; the SQLAlchemy queries the views run become
    list functions over the tables.  The password primitives of Werkzeug
    are a type class; the clock and the salt are read from the request.

    The first part holds the embedding and the notions the statements
    use, the second the properties: the messaging rules of
    [listing_detail], the login and registration responses, the
    invariants of the reachable databases, the two conversation views and
    the catalogue search. *)

From Stdlib Require Import ZArith Ascii String.
From stdpp Require Import base numbers option list strings gmap sorting pretty relations.

Open Scope string_scope.
Open Scope list_scope.
Open Scope Z_scope.

(** ** The models (classes [User], [Listing], [Message]) *)

Module User.
Record t := mk {
  id : Z;
  username : string;
  email : string;
  password_hash : string
}.
End User.

Module Listing.
Record t := mk {
  id : Z;
  title : string;
  author : string;
  genre : option string;        (* nullable *)
  description : option string;  (* nullable *)
  condition : option string;    (* nullable *)
  created_at : Z;               (* default=datetime.utcnow *)
  owner_id : Z
}.
End Listing.

Module Message.
Record t := mk {
  id : Z;
  sender_id : Z;
  receiver_id : Z;
  listing_id : Z;
  content : string;
  timestamp : Z                 (* default=datetime.utcnow *)
}.
End Message.

#[global] Instance User_eq_dec : EqDecision User.t.
Proof. solve_decision. Defined.
#[global] Instance Listing_eq_dec : EqDecision Listing.t.
Proof. solve_decision. Defined.
#[global] Instance Message_eq_dec : EqDecision Message.t.
Proof. solve_decision. Defined.

(** The three tables, each in the order in which a query without
    [order_by] scans it. *)
Record Database := mkDatabase {
  user_table : list User.t;
  listing_table : list Listing.t;
  message_table : list Message.t
}.

(** The three tables, created and empty.  The tables are taken to exist:
    the model does not follow the order in which the module calls
    [db.create_all()] and declares the models. *)
Definition empty_db : Database := mkDatabase [] [] [].

(** The integer primary key SQLite gives to an inserted row: one more than
    the largest key in use, 1 in an empty table. *)
Definition next_id (ids : list Z) : Z := 1 + foldr Z.max 0 ids.

(** ** Python truthiness of the values the views test *)

(** [if s:] for a [str]. *)
Definition truthy_str (s : string) : bool := negb (String.eqb s "").

(** [if v:] for the result of [request.form.get(...)]: [None] and the empty
    string are falsy. *)
Definition truthy (v : option string) : bool :=
  match v with
  | Some s => truthy_str s
  | None => false
  end.

(** ** SQL: three-valued logic, LIKE, ORDER BY *)

(** A SQL boolean: [None] is NULL. *)
Definition sql_bool := option bool.

Definition sql_or (a b : sql_bool) : sql_bool :=
  match a, b with
  | Some true, _ | _, Some true => Some true
  | Some false, Some false => Some false
  | _, _ => None
  end.

(** A WHERE clause keeps the rows on which the condition is true (neither
    false nor NULL). *)
Definition sql_holds (c : sql_bool) : Prop := c = Some true.

#[global] Instance sql_holds_dec c : Decision (sql_holds c).
Proof. unfold sql_holds. solve_decision. Defined.

(** SQLite's [lower()] folds the ASCII letters A-Z only. *)
Definition ascii_lower (c : ascii) : ascii :=
  let n := nat_of_ascii c in
  if ((65 <=? n) && (n <=? 90))%nat then ascii_of_nat (n + 32) else c.

Fixpoint lower (s : string) : string :=
  match s with
  | EmptyString => EmptyString
  | String c s' => String (ascii_lower c) (lower s')
  end.

(** SQLite's [subject LIKE pattern] (no ESCAPE clause): [%] matches any
    sequence of characters, [_] matches any one character, every other
    character matches itself up to ASCII case. *)
Fixpoint like (pattern subject : string) : bool :=
  match pattern with
  | EmptyString =>
      match subject with
      | EmptyString => true
      | String _ _ => false
      end
  | String p pattern' =>
      if Ascii.eqb p "%" then
        (fix skip (s : string) : bool :=
           like pattern' s ||
           match s with
           | EmptyString => false
           | String _ s' => skip s'
           end) subject
      else
        match subject with
        | EmptyString => false
        | String c subject' =>
            (Ascii.eqb p "_" || Ascii.eqb (ascii_lower p) (ascii_lower c))
            && like pattern' subject'
        end
  end.

(** [column.ilike(pattern)], which SQLAlchemy renders for SQLite as
    [lower(column) LIKE lower(pattern)]. *)
Definition ilike (column pattern : string) : bool :=
  like (lower pattern) (lower column).

(** [ilike] on a nullable column: NULL LIKE anything is NULL. *)
Definition ilike_nullable (column : option string) (pattern : string) : sql_bool :=
  (λ c, ilike c pattern) <$> column.

(** The order of two rows on an integer-valued column. *)
Definition col_le {A} (col : A → Z) : relation A := λ r1 r2, col r1 ≤ col r2.

#[global] Instance col_le_dec {A} (col : A → Z) : RelDecision (col_le col).
Proof. intros r1 r2. unfold col_le. apply _. Defined.

(** [order_by(col.asc())] and [order_by(col.desc())].  SQL leaves the
    order of rows with equal keys open; the sort used here fixes one. *)
Definition order_by_asc {A} (col : A → Z) (rows : list A) : list A :=
  merge_sort (col_le col) rows.

Definition order_by_desc {A} (col : A → Z) (rows : list A) : list A :=
  merge_sort (flip (col_le col)) rows.

(** ** Queries *)

(** [db.session.get(User, user_id)]. *)
Definition get_user (db : Database) (user_id : Z) : option User.t :=
  head (filter (λ u, User.id u = user_id) (user_table db)).

(** [User.query.filter_by(username=username).first()].  The column is not
    nullable, so [username IS NULL] selects nothing. *)
Definition first_user_by_username (db : Database) (username : option string)
  : option User.t :=
  name ← username;
  head (filter (λ u, User.username u = name) (user_table db)).

(** [User.query.filter_by(email=email).first()]. *)
Definition first_user_by_email (db : Database) (email : option string)
  : option User.t :=
  addr ← email;
  head (filter (λ u, User.email u = addr) (user_table db)).

(** [Listing.query.get(listing_id)].  The id is an unbounded integer here;
    the model does not follow what SQLite does with a key outside its
    64-bit range. *)
Definition get_listing (db : Database) (listing_id : Z) : option Listing.t :=
  head (filter (λ l, Listing.id l = listing_id) (listing_table db)).

(** [listing.owner], the relationship behind [owner_id]. *)
Definition owner (db : Database) (listing : Listing.t) : option User.t :=
  get_user db (Listing.owner_id listing).

(** The query of [listing_detail] for the messages between two users about
    a listing: [filter_by(listing_id=...)], the [or_] of the two
    directions, [order_by(Message.timestamp.asc())]. *)
Definition conversation (db : Database) (listing_id a b : Z) : list Message.t :=
  order_by_asc Message.timestamp
    (filter (λ m, (Message.sender_id m = a ∧ Message.receiver_id m = b)
                  ∨ (Message.sender_id m = b ∧ Message.receiver_id m = a))
       (filter (λ m, Message.listing_id m = listing_id) (message_table db))).

(** The query of [messages_overview]: every message the user sent or
    received, in scan order. *)
Definition messages_involving (db : Database) (user_id : Z) : list Message.t :=
  filter (λ m, Message.sender_id m = user_id ∨ Message.receiver_id m = user_id)
    (message_table db).

(** The key [messages_overview] files a message under. *)
Definition conversation_key (user_id : Z) (msg : Message.t) : Z * Z :=
  let partner_id :=
    if decide (Message.sender_id msg = user_id)
    then Message.receiver_id msg else Message.sender_id msg in
  (Message.listing_id msg, partner_id).

(** One turn of the loop of [messages_overview]. *)
Definition conversations_step (user_id : Z)
    (conversations : gmap (Z * Z) Message.t) (msg : Message.t)
  : gmap (Z * Z) Message.t :=
  let key := conversation_key user_id msg in
  match conversations !! key with
  | None => <[key := msg]> conversations
  | Some kept =>
      if decide (Message.timestamp kept < Message.timestamp msg)
      then <[key := msg]> conversations
      else conversations
  end.

(** The dictionary [conversations] that [messages_overview] builds from the
    scanned messages. *)
Definition group_conversations (user_id : Z) (msgs : list Message.t)
  : gmap (Z * Z) Message.t :=
  foldl (conversations_step user_id) ∅ msgs.

(** The filters of [listings]: the search over title, author and genre,
    then the genre and condition filters, newest first. *)
Definition search_listings (db : Database)
    (search_query genre_filter condition_filter : string) : list Listing.t :=
  let query := listing_table db in
  let query :=
    if truthy_str search_query then
      let like_pattern := "%" +:+ search_query +:+ "%" in
      filter (λ l, sql_holds
                (sql_or (sql_or (Some (ilike (Listing.title l) like_pattern))
                                (Some (ilike (Listing.author l) like_pattern)))
                        (ilike_nullable (Listing.genre l) like_pattern)))
        query
    else query in
  let query :=
    if truthy_str genre_filter
    then filter (λ l, Listing.genre l = Some genre_filter) query
    else query in
  let query :=
    if truthy_str condition_filter
    then filter (λ l, Listing.condition l = Some condition_filter) query
    else query in
  order_by_desc Listing.created_at query.

(** ** Requests, responses and the world the views run in *)

Inductive Method := GET | POST.

(** The URL rules registered with [@app.route]; [rule_none] is any URL that
    matches none of them. *)
Inductive Rule :=
  | rule_index
  | rule_register
  | rule_login
  | rule_logout
  | rule_listings
  | rule_listing_detail (listing_id : Z)
  | rule_create_listing
  | rule_my_listings
  | rule_messages
  | rule_none.

(** What a view reads from its surroundings: the matched rule, the method,
    [request.form], [request.args], the clock [datetime.utcnow()] reads
    while the request is handled and the salt [generate_password_hash]
    draws. *)
Record Request := mkRequest {
  rule : Rule;
  method : Method;
  form : gmap string string;
  args : gmap string string;
  utcnow : Z;
  salt : string
}.

(** The database, and the user id Flask-Login keeps in the session. *)
Record World := mkWorld {
  db : Database;
  session_user_id : option Z
}.

Definition initial_world : World := mkWorld empty_db None.

(** The dictionary [index] builds for each listing. *)
Record ListingData := mkListingData {
  data_id : Z;
  data_title : string;
  data_author : string;
  data_genre : option string;
  data_condition : option string;
  data_created_at : Z
}.

(** A template with the values passed to it. *)
Inductive Page :=
  | index_html (listings : list ListingData)
  | register_html
  | login_html
  | listings_html (listings : list Listing.t) (genres conditions : list string)
      (search_query genre_filter condition_filter : string)
  | listing_detail_html (listing : Listing.t) (messages : list Message.t)
  | create_listing_html
  | my_listings_html (listings : list Listing.t)
  | messages_html (conversations : gmap (Z * Z) Message.t).

Inductive Body :=
  | render_template (page : Page)
  | redirect (location : string)
  | not_found               (* abort(404): [page_not_found] renders 404.html *)
  | method_not_allowed      (* the rule does not accept the method *)
  | unauthorized            (* Flask-Login sends the client to the login view *)
  | server_error.           (* an uncaught exception *)

(** A response and the notices [flash(message, category)] queued while it
    was produced, oldest first. *)
Record Response := mkResponse {
  body : Body;
  flashes : list (string * string)
}.

(** [url_for(endpoint)] for the endpoints the views redirect to. *)
Definition url_for_index : string := "/".
Definition url_for_register : string := "/register".
Definition url_for_login : string := "/login".
Definition url_for_listings : string := "/listings".
Definition url_for_create_listing : string := "/create_listing".
Definition url_for_listing_detail (listing_id : Z) : string :=
  "/listing/" +:+ pretty listing_id.

(** The value of a form field when it is truthy: [request.form.get(name)]
    followed by [if value:]. *)
Definition if_truthy (v : option string) : option string :=
  s ← v; if truthy_str s then Some s else None.

(** [werkzeug.security]: the two password primitives, kept abstract.
    [generate_password_hash] draws a salt, passed here as an argument. *)
Class Werkzeug := {
  generate_password_hash : string → string → string;
  check_password_hash : string → string → bool
}.

(** The user loader registered with Flask-Login. *)
Definition load_user (db : Database) (user_id : Z) : option User.t :=
  get_user db user_id.

(** [user.set_password(password)]. *)
Definition set_password {werkzeug : Werkzeug} (salt password : string)
    (user : User.t) : User.t :=
  User.mk (User.id user) (User.username user) (User.email user)
    (generate_password_hash salt password).

(** [user.check_password(password)].  Werkzeug encodes the password before
    hashing it, so a missing form field ([None]) raises. *)
Definition check_password {werkzeug : Werkzeug} (user : User.t)
    (password : option string) : option bool :=
  check_password_hash (User.password_hash user) <$> password.

(** [current_user]: the user [load_user] finds for the id in the session;
    anonymous when there is none. *)
Definition current_user (w : World) : option User.t :=
  uid ← session_user_id w; load_user (db w) uid.

(** [login_user(user)] and [logout_user()]. *)
Definition login_user (user : User.t) (w : World) : World :=
  mkWorld (db w) (Some (User.id user)).

Definition logout_user (w : World) : World := mkWorld (db w) None.

(** [db.session.add(row); db.session.commit()] for each table. *)
Definition add_user (u : User.t) (w : World) : World :=
  mkWorld (mkDatabase (user_table (db w) ++ [u]) (listing_table (db w))
             (message_table (db w)))
          (session_user_id w).

Definition add_listing (l : Listing.t) (w : World) : World :=
  mkWorld (mkDatabase (user_table (db w)) (listing_table (db w) ++ [l])
             (message_table (db w)))
          (session_user_id w).

Definition add_message (m : Message.t) (w : World) : World :=
  mkWorld (mkDatabase (user_table (db w)) (listing_table (db w))
             (message_table (db w) ++ [m]))
          (session_user_id w).

(** The decorator [@login_required]. *)
Definition login_required (view : User.t → Request → World → World * Response)
    (request : Request) (w : World) : World * Response :=
  match current_user w with
  | Some user => view user request w
  | None =>
      (w, mkResponse unauthorized [("Please log in to access this page.", "message")])
  end.

(** ** The views *)

(** The 404 handler. *)
Definition page_not_found : Response := mkResponse not_found [].

(** [/]: the five most recent listings. *)
Definition index (request : Request) (w : World) : World * Response :=
  let recent_listings := take 5 (order_by_desc Listing.created_at (listing_table (db w))) in
  let listings_data :=
    (λ listing, mkListingData (Listing.id listing) (Listing.title listing)
                  (Listing.author listing) (Listing.genre listing)
                  (Listing.condition listing) (Listing.created_at listing))
      <$> recent_listings in
  (w, mkResponse (render_template (index_html listings_data)) []).

(** [/register]: validate the form, refuse duplicates, create the user and
    log them in. *)
Definition register {werkzeug : Werkzeug} (request : Request) (w : World) : World * Response :=
  match method request with
  | POST =>
      let username := form request !! "username" in
      let email := form request !! "email" in
      let password := form request !! "password" in
      let confirm := form request !! "confirm" in
      match if_truthy username, if_truthy email, if_truthy password with
      | Some username', Some email', Some password' =>
          if decide (password ≠ confirm) then
            (w, mkResponse (redirect url_for_register)
                  [("Passwords do not match.", "danger")])
          else
          match first_user_by_username (db w) username with
          | Some _ =>
              (w, mkResponse (redirect url_for_register)
                    [("Username already taken.", "danger")])
          | None =>
          match first_user_by_email (db w) email with
          | Some _ =>
              (w, mkResponse (redirect url_for_register)
                    [("Email already registered.", "danger")])
          | None =>
              let new_user :=
                set_password (salt request) password'
                  (User.mk (next_id (User.id <$> user_table (db w)))
                     username' email' "") in
              (login_user new_user (add_user new_user w),
               mkResponse (redirect url_for_index)
                 [("Registration successful! Welcome to the book exchange.", "success")])
          end
          end
      | _, _, _ =>
          (w, mkResponse (redirect url_for_register)
                [("All fields are required.", "danger")])
      end
  | GET => (w, mkResponse (render_template register_html) [])
  end.

(** [/login]: verify the credentials, then redirect to [next] or home. *)
Definition login {werkzeug : Werkzeug} (request : Request) (w : World) : World * Response :=
  match method request with
  | POST =>
      let username := form request !! "username" in
      let password := form request !! "password" in
      let invalid :=
        (w, mkResponse (redirect url_for_login)
              [("Invalid username or password.", "danger")]) in
      match first_user_by_username (db w) username with
      | None => invalid
      | Some user =>
          match check_password user password with
          | None => (w, mkResponse server_error [])
          | Some false => invalid
          | Some true =>
              let next_page := args request !! "next" in
              (login_user user w,
               mkResponse
                 (redirect (default url_for_index (if_truthy next_page)))
                 [("Logged in successfully.", "success")])
          end
      end
  | GET => (w, mkResponse (render_template login_html) [])
  end.

(** [/logout]. *)
Definition logout : Request → World → World * Response :=
  login_required (λ _ request w,
    (logout_user w,
     mkResponse (redirect url_for_index) [("You have been logged out.", "info")])).

(** [/listings]: the catalogue with its search and filters, and the
    distinct non-empty genres and conditions for the filter menus. *)
Definition listings (request : Request) (w : World) : World * Response :=
  let search_query := default "" (args request !! "q") in
  let genre_filter := default "" (args request !! "genre") in
  let condition_filter := default "" (args request !! "condition") in
  let listings := search_listings (db w) search_query genre_filter condition_filter in
  let genres :=
    filter (λ g, truthy_str g = true)
      (remove_dups (omap Listing.genre (listing_table (db w)))) in
  let conditions :=
    filter (λ c, truthy_str c = true)
      (remove_dups (omap Listing.condition (listing_table (db w)))) in
  (w, mkResponse
        (render_template
           (listings_html listings genres conditions
              search_query genre_filter condition_filter)) []).

(** [/listing/<int:listing_id>]: the listing, the conversation of an
    authenticated visitor with its owner, and on POST a new message to the
    owner. *)
Definition listing_detail (listing_id : Z) (request : Request) (w : World)
  : World * Response :=
  match get_listing (db w) listing_id with
  | None => (w, page_not_found)  (* [get_or_404] *)
  | Some listing =>
      let owner := owner (db w) listing in
      match current_user w with
      | Some current_user =>
          match owner with
          | None => (w, mkResponse server_error [])  (* [owner.id] on [None] *)
          | Some owner =>
              let messages :=
                conversation (db w) (Listing.id listing)
                  (User.id current_user) (User.id owner) in
              let page flashed :=
                (w, mkResponse
                      (render_template (listing_detail_html listing messages))
                      flashed) in
              match method request with
              | POST =>
                  match if_truthy (form request !! "content") with
                  | Some content =>
                      let receiver_id :=
                        if decide (User.id current_user ≠ User.id owner)
                        then Some (User.id owner) else None in
                      match receiver_id with
                      | None =>
                          page [("You cannot message yourself about your own listing.",
                                 "warning")]
                      | Some receiver_id =>
                          let new_message :=
                            Message.mk
                              (next_id (Message.id <$> message_table (db w)))
                              (User.id current_user) receiver_id
                              (Listing.id listing) content (utcnow request) in
                          (add_message new_message w,
                           mkResponse
                             (redirect (url_for_listing_detail (Listing.id listing)))
                             [("Message sent.", "success")])
                      end
                  | None => page []
                  end
              | GET => page []
              end
          end
      | None =>
          (* Not authenticated: show listing details but no messages *)
          (w, mkResponse (render_template (listing_detail_html listing [])) [])
      end
  end.

(** [/create_listing]. *)
Definition create_listing : Request → World → World * Response :=
  login_required (λ current_user request w,
    match method request with
    | POST =>
        let title := form request !! "title" in
        let author := form request !! "author" in
        let genre := form request !! "genre" in
        let description := form request !! "description" in
        let condition := form request !! "condition" in
        match if_truthy title, if_truthy author with
        | Some title', Some author' =>
            let listing :=
              Listing.mk (next_id (Listing.id <$> listing_table (db w)))
                title' author' genre description condition
                (utcnow request) (User.id current_user) in
            (add_listing listing w,
             mkResponse (redirect url_for_listings)
               [("Listing created successfully.", "success")])
        | _, _ =>
            (w, mkResponse (redirect url_for_create_listing)
                  [("Title and author are required.", "danger")])
        end
    | GET => (w, mkResponse (render_template create_listing_html) [])
    end).

(** [/my_listings]. *)
Definition my_listings : Request → World → World * Response :=
  login_required (λ current_user request w,
    let listings :=
      order_by_desc Listing.created_at
        (filter (λ l, Listing.owner_id l = User.id current_user)
           (listing_table (db w))) in
    (w, mkResponse (render_template (my_listings_html listings)) [])).

(** [/messages]: the latest message of each conversation of the user. *)
Definition messages_overview : Request → World → World * Response :=
  login_required (λ current_user request w,
    let msgs := messages_involving (db w) (User.id current_user) in
    let conversations := group_conversations (User.id current_user) msgs in
    (w, mkResponse (render_template (messages_html conversations)) [])).

(** Routing: the view registered for the rule, when the rule accepts the
    method. *)
Definition dispatch {werkzeug : Werkzeug} (request : Request) (w : World) : World * Response :=
  match rule request, method request with
  | rule_index, GET => index request w
  | rule_register, _ => register request w
  | rule_login, _ => login request w
  | rule_logout, GET => logout request w
  | rule_listings, GET => listings request w
  | rule_listing_detail listing_id, _ => listing_detail listing_id request w
  | rule_create_listing, _ => create_listing request w
  | rule_my_listings, GET => my_listings request w
  | rule_messages, GET => messages_overview request w
  | rule_none, _ => (w, page_not_found)
  | _, POST => (w, mkResponse method_not_allowed [])
  end.

(** One step of the running application: a request is served, or the next
    request comes from a browser holding another session cookie. *)
Inductive step {werkzeug : Werkzeug} : World → World → Prop :=
  | step_request request w : step w (dispatch request w).1
  | step_session w uid : step w (mkWorld (db w) uid).

(** The worlds the application can be in, started on an empty database. *)
Definition reachable {werkzeug : Werkzeug} (w : World) : Prop := rtc step initial_world w.

(** * Notions used in the statements *)

(** ** Notices, and the outcomes the statements speak of *)

Definition self_message_warning : string * string :=
  ("You cannot message yourself about your own listing.", "warning").

(** The same request, sent as a GET. *)
Definition as_get (request : Request) : Request :=
  mkRequest (rule request) GET (form request) (args request)
    (utcnow request) (salt request).

Definition invalid_login_notice : string * string :=
  ("Invalid username or password.", "danger").

(** The two notices [register] flashes for a duplicate. *)
Definition username_taken_notice : string * string :=
  ("Username already taken.", "danger").
Definition email_registered_notice : string * string :=
  ("Email already registered.", "danger").

(** A response that reports a duplicate username or email. *)
Definition conflict_error (r : Response) : Prop :=
  flashes r = [username_taken_notice] ∨ flashes r = [email_registered_notice].

(** The response of a registration that went through. *)
Definition registration_successful (r : Response) : Prop :=
  r = mkResponse (redirect url_for_index)
        [("Registration successful! Welcome to the book exchange.", "success")].

(** The two notices [register] flashes for a form that fails its checks. *)
Definition all_fields_required_notice : string * string :=
  ("All fields are required.", "danger").
Definition passwords_mismatch_notice : string * string :=
  ("Passwords do not match.", "danger").

(** The username, the email and the password are there and not empty. *)
Definition required_fields_present (request : Request) : Prop :=
  is_Some (if_truthy (form request !! "username"))
  ∧ is_Some (if_truthy (form request !! "email"))
  ∧ is_Some (if_truthy (form request !! "password")).

(** The form passes the checks [register] makes before it looks for
    duplicates. *)
Definition valid_registration_form (request : Request) : Prop :=
  is_Some (if_truthy (form request !! "username"))
  ∧ is_Some (if_truthy (form request !! "email"))
  ∧ is_Some (if_truthy (form request !! "password"))
  ∧ form request !! "password" = form request !! "confirm".

Definition username_held (db : Database) (username : option string) : Prop :=
  is_Some (first_user_by_username db username).

Definition email_held (db : Database) (email : option string) : Prop :=
  is_Some (first_user_by_email db email).

(** ** Effects of a request, runs *)

(** What the listing page stores: a message with content, from a sender to
    someone else, who owns a listing the message is about. *)
Definition sent_to_owner (db : Database) (m : Message.t) : Prop :=
  Message.content m ≠ ""
  ∧ Message.sender_id m ≠ Message.receiver_id m
  ∧ ∃ l, l ∈ listing_table db
         ∧ Listing.id l = Message.listing_id m
         ∧ Listing.owner_id l = Message.receiver_id m.

(** A request leaves the tables alone or appends one row to one of them: a
    user, a listing whose owner is a user, or a message to the owner of a
    listing. *)
Inductive db_effect (w : World) : World → Prop :=
  | effect_none s :
      db_effect w (mkWorld (db w) s)
  | effect_user u s :
      db_effect w (mkWorld (db (add_user u w)) s)
  | effect_listing l s :
      is_Some (owner (db w) l) →
      db_effect w (mkWorld (db (add_listing l w)) s)
  | effect_message m s :
      sent_to_owner (db w) m →
      db_effect w (mkWorld (db (add_message m w)) s).

(** Every message in the table has content. *)
Definition messages_have_content (w : World) : Prop :=
  Forall (λ m, Message.content m ≠ "") (message_table (db w)).

(** The data model's invariants: every listing's owner is a user, and every
    message went from a non-owner to the owner of a listing. *)
Definition listings_have_owners (w : World) : Prop :=
  Forall (λ l, is_Some (owner (db w) l)) (listing_table (db w)).

Definition messages_sent_to_owners (w : World) : Prop :=
  Forall (sent_to_owner (db w)) (message_table (db w)).

(** The request repeats the username or the email of a registration that
    went through at some earlier point of the run. *)
Definition repeats_registration {werkzeug : Werkzeug} (w : World)
    (request : Request) : Prop :=
  ∃ w0 first,
    method first = POST
    ∧ registration_successful (register first w0).2
    ∧ rtc step (register first w0).1 w
    ∧ (form request !! "username" = form first !! "username"
       ∨ form request !! "email" = form first !! "email").

(** ** Conversations *)

(** The two ends of a message, as a set. *)
Definition participants (m : Message.t) : gset Z :=
  {[Message.sender_id m; Message.receiver_id m]}.

(** [m] is, in the scan [msgs], the first message filed under [key] with
    the greatest timestamp: every earlier message of the key is strictly
    older, no later one is newer. *)
Definition first_latest (user_id : Z) (msgs : list Message.t)
    (key : Z * Z) (m : Message.t) : Prop :=
  ∃ before after,
    msgs = before ++ m :: after
    ∧ conversation_key user_id m = key
    ∧ (∀ m', m' ∈ before → conversation_key user_id m' = key →
         Message.timestamp m' < Message.timestamp m)
    ∧ (∀ m', m' ∈ after → conversation_key user_id m' = key →
         Message.timestamp m' ≤ Message.timestamp m).

(** The tie-break as the specification words it: the entry kept for a key
    is not followed in the scan by a message of the key with the same
    timestamp. *)
Definition last_encountered_wins (user_id : Z) (msgs : list Message.t) : Prop :=
  ∀ key m before after,
    group_conversations user_id msgs !! key = Some m →
    msgs = before ++ m :: after →
    ∀ m', m' ∈ after → conversation_key user_id m' = key →
      Message.timestamp m' ≠ Message.timestamp m.

(** ** The catalogue search as the specification describes it *)

(** [q] occurs in [s] as a substring. *)
Fixpoint is_substring (q s : string) : bool :=
  String.prefix q s
  || match s with
     | EmptyString => false
     | String _ s' => is_substring q s'
     end.

(** [q] occurs in [field] as a substring, case-insensitively. *)
Definition contains_ci (q field : string) : bool :=
  is_substring (lower q) (lower field).

(** The specification's search: [q] occurs case-insensitively in the
    title, the author or the genre. *)
Definition matches_search (q : string) (l : Listing.t) : bool :=
  contains_ci q (Listing.title l)
  || contains_ci q (Listing.author l)
  || from_option (contains_ci q) false (Listing.genre l).

(** The specification's [listListings]: the filters that are provided (not
    empty) all hold, newest first. *)
Definition listListings (db : Database) (q genre condition : string)
  : list Listing.t :=
  order_by_desc Listing.created_at
    (filter (λ l, (q = "" ∨ matches_search q l = true)
                  ∧ (genre = "" ∨ Listing.genre l = Some genre)
                  ∧ (condition = "" ∨ Listing.condition l = Some condition))
       (listing_table db)).


(** Serving a list of requests one after the other. *)
Definition run {werkzeug : Werkzeug} (requests : list Request) (w : World) : World :=
  foldl (λ w request, (dispatch request w).1) w requests.

(** ** Trimming *)

(** The views never trim a form field.  The specification's [content
    non-empty after trimming] is read with the usual ASCII whitespace:
    space, tab, line feed, vertical tab, form feed, carriage return. *)
Definition is_space (c : ascii) : bool :=
  let n := nat_of_ascii c in
  (((9 <=? n) && (n <=? 13)) || (n =? 32))%nat.

Fixpoint lstrip (s : string) : string :=
  match s with
  | EmptyString => EmptyString
  | String c s' => if is_space c then lstrip s' else s
  end.

Fixpoint rstrip (s : string) : string :=
  match s with
  | EmptyString => EmptyString
  | String c s' =>
      match rstrip s' with
      | EmptyString => if is_space c then EmptyString else String c EmptyString
      | String _ _ as kept => String c kept
      end
  end.

Definition trim (s : string) : string := lstrip (rstrip s).

(** ** A small instance to run the views on *)

(** The part of a stored hash after its first dollar sign. *)
Fixpoint after_dollar (h : string) : string :=
  match h with
  | EmptyString => EmptyString
  | String c h' => if Ascii.eqb c "$" then h' else after_dollar h'
  end.

(** A stand-in for Werkzeug on examples: the stored hash is the salt, a
    dollar sign and the password. *)
Definition plain_hash : Werkzeug := {|
  generate_password_hash salt password := salt +:+ "$" +:+ password;
  check_password_hash pwhash password := String.eqb (after_dollar pwhash) password
|}.

Definition post (r : Rule) (fields : list (string * string)) (now : Z) : Request :=
  mkRequest r POST (list_to_map fields) ∅ now "salt".

Definition register_bob : Request :=
  post rule_register
    [("username", "bob"); ("email", "bob@example.org");
     ("password", "hunter2"); ("confirm", "hunter2")] 100.

Definition create_dune : Request :=
  post rule_create_listing [("title", "Dune"); ("author", "Herbert")] 200.

Definition register_alice : Request :=
  post rule_register
    [("username", "alice"); ("email", "alice@example.org");
     ("password", "swordfish"); ("confirm", "swordfish")] 300.

Definition bob : User.t := User.mk 1 "bob" "bob@example.org" "salt$hunter2".
Definition alice : User.t := User.mk 2 "alice" "alice@example.org" "salt$swordfish".
Definition dune : Listing.t := Listing.mk 1 "Dune" "Herbert" None None None 200 1.

(** Bob registers and lists Dune, then Alice registers: Alice is logged
    in. *)
Definition market : World :=
  run (werkzeug := plain_hash) [register_bob; create_dune; register_alice] initial_world.

(** The same database with Bob logged in. *)
Definition market_as_bob : World := mkWorld (db market) (Some 1).

(** Alice asks about Dune, then sends a blank. *)
Definition ask_dune : Request :=
  post (rule_listing_detail 1) [("content", "Is this available?")] 400.

Definition blank_dune : Request :=
  post (rule_listing_detail 1) [("content", " ")] 500.

(** Two messages between Bob and Alice about Dune with one timestamp. *)
Definition tie_first : Message.t := Message.mk 1 2 1 1 "first" 400.
Definition tie_second : Message.t := Message.mk 2 2 1 1 "second" 400.

(** Alice asks twice within one reading of the clock. *)
Definition ask_first : Request :=
  post (rule_listing_detail 1) [("content", "first")] 400.
Definition ask_second : Request :=
  post (rule_listing_detail 1) [("content", "second")] 400.

Definition tie_world : World :=
  run (werkzeug := plain_hash) [ask_first; ask_second] market.

Definition blank_world : World :=
  run (werkzeug := plain_hash)
    [register_bob; create_dune; register_alice; blank_dune] initial_world.

(** Alice's two failed logins, and a good one with a [next] target. *)
Definition login_mallory : Request :=
  post rule_login [("username", "mallory"); ("password", "swordfish")] 600.
Definition login_alice_wrong : Request :=
  post rule_login [("username", "alice"); ("password", "sw0rdfish")] 600.
Definition login_alice_next : Request :=
  mkRequest rule_login POST
    (list_to_map [("username", "alice"); ("password", "swordfish")])
    (list_to_map [("next", "https://elsewhere.example/")]) 600 "salt".

(** The same two logins sent without a password field. *)
Definition login_mallory_no_password : Request :=
  post rule_login [("username", "mallory")] 600.
Definition login_alice_no_password : Request :=
  post rule_login [("username", "alice")] 600.

(** A registration under a new username with Bob's email. *)
Definition register_carol_bobs_email : Request :=
  post rule_register
    [("username", "carol"); ("email", "bob@example.org");
     ("password", "opensesame"); ("confirm", "opensesame")] 700.

(** A second registration under Bob's username whose two passwords
    differ, and one that passes validation. *)
Definition register_bob_mismatch : Request :=
  post rule_register
    [("username", "bob"); ("email", "robert@example.org");
     ("password", "hunter2"); ("confirm", "hunter3")] 700.
Definition register_bob_again : Request :=
  post rule_register
    [("username", "bob"); ("email", "robert@example.org");
     ("password", "hunter2"); ("confirm", "hunter2")] 700.

(** A POST to Dune's page without a content field. *)
Definition post_nothing : Request := post (rule_listing_detail 1) [] 800.

(** ** Uniqueness, foreign keys, and further examples *)

(** The unique columns of the user table hold no value twice. *)
Definition users_unique (w : World) : Prop :=
  NoDup (User.id <$> user_table (db w))
  ∧ NoDup (User.username <$> user_table (db w))
  ∧ NoDup (User.email <$> user_table (db w)).

(** [user_id] is the key of a row of the user table. *)
Definition is_user_id (db : Database) (user_id : Z) : Prop :=
  ∃ u, u ∈ user_table db ∧ User.id u = user_id.

(** Every foreign key points at a row: a listing's owner is a user, a
    message's sender and receiver are users and its listing is a listing. *)
Definition foreign_keys_valid (w : World) : Prop :=
  (∀ l, l ∈ listing_table (db w) → is_user_id (db w) (Listing.owner_id l))
  ∧ (∀ m, m ∈ message_table (db w) →
       is_user_id (db w) (Message.sender_id m)
       ∧ is_user_id (db w) (Message.receiver_id m)
       ∧ ∃ l, l ∈ listing_table (db w) ∧ Listing.id l = Message.listing_id m).

(** The row [register] inserts for a form with these values. *)
Definition registered_user {werkzeug : Werkzeug} (request : Request) (w : World)
    (name addr pw : string) : User.t :=
  User.mk (next_id (User.id <$> user_table (db w))) name addr
    (generate_password_hash (salt request) pw).

(** The row [create_listing] inserts for a form with this title and
    author, sent by [user]. *)
Definition created_listing (request : Request) (w : World) (user : User.t)
    (title author : string) : Listing.t :=
  Listing.mk (next_id (Listing.id <$> listing_table (db w))) title author
    (form request !! "genre") (form request !! "description")
    (form request !! "condition") (utcnow request) (User.id user).

(** Every sender in the message table is a user. *)
Definition senders_registered (w : World) : Prop :=
  Forall (λ m, is_user_id (db w) (Message.sender_id m)) (message_table (db w)).

(** What [@login_required] answers to an anonymous visitor. *)
Definition login_required_response : Response :=
  mkResponse unauthorized [("Please log in to access this page.", "message")].

(** The dictionary [index] makes of a listing. *)
Definition listing_data (listing : Listing.t) : ListingData :=
  mkListingData (Listing.id listing) (Listing.title listing)
    (Listing.author listing) (Listing.genre listing)
    (Listing.condition listing) (Listing.created_at listing).

(** The market before Alice registers: Bob is logged in. *)
Definition market_before_alice : World :=
  run (werkzeug := plain_hash) [register_bob; create_dune] initial_world.

(** The market after Alice has asked about Dune, as Alice leaves it and
    with Bob logged in. *)
Definition market_after_ask : World :=
  run (werkzeug := plain_hash) [ask_dune] market.

Definition market_after_ask_as_bob : World :=
  mkWorld (db market_after_ask) (Some 1).

Definition question : Message.t := Message.mk 1 2 1 1 "Is this available?" 400.

Definition emma : Listing.t :=
  Listing.mk 2 "Emma" "Austen" (Some "Novel") None None 950 2.

(** Alice logs in with her password; a bare GET of a rule; a second
    listing by Alice. *)
Definition login_alice : Request :=
  post rule_login [("username", "alice"); ("password", "swordfish")] 600.

Definition get (r : Rule) : Request := mkRequest r GET ∅ ∅ 900 "salt".

Definition create_emma : Request :=
  post rule_create_listing
    [("title", "Emma"); ("author", "Austen"); ("genre", "Novel")] 950.

(** The market after Alice has listed Emma. *)
Definition market_with_emma : World :=
  run (werkzeug := plain_hash) [create_emma] market.

Definition create_untitled : Request :=
  post rule_create_listing [("title", ""); ("author", "Austen")] 950.

Definition register_nameless : Request :=
  post rule_register
    [("username", ""); ("email", "carol@example.org");
     ("password", "opensesame"); ("confirm", "opensesame")] 960.

(** * Properties *)

(** ** Lookups *)

Lemma head_filter_Some {A} (P : A → Prop) `{!∀ x, Decision (P x)} (l : list A) x :
  head (filter P l) = Some x → P x ∧ x ∈ l.
Proof.
  intros Hhead. apply head_Some_elem_of in Hhead.
  by apply list_elem_of_filter in Hhead.
Qed.

Lemma head_filter_None {A} (P : A → Prop) `{!∀ x, Decision (P x)} (l : list A) :
  head (filter P l) = None ↔ ∀ x, x ∈ l → ¬ P x.
Proof.
  rewrite head_None. split.
  - intros Hnil x Hx HP. by eapply filter_nil_not_elem_of.
  - intros Hnone. destruct (filter P l) as [|y k] eqn:Hfilter; [done|].
    assert (y ∈ filter P l) as Hy by (rewrite Hfilter; left).
    apply list_elem_of_filter in Hy as [HP Hy]. by destruct (Hnone y).
Qed.

Lemma get_listing_Some db listing_id listing :
  get_listing db listing_id = Some listing →
  Listing.id listing = listing_id ∧ listing ∈ listing_table db.
Proof.
  intros Hget.
  by apply (head_filter_Some (λ l, Listing.id l = listing_id)) in Hget.
Qed.

Lemma get_user_Some db user_id user :
  get_user db user_id = Some user →
  User.id user = user_id ∧ user ∈ user_table db.
Proof.
  intros Hget.
  by apply (head_filter_Some (λ u, User.id u = user_id)) in Hget.
Qed.

Lemma owner_Some db listing user :
  owner db listing = Some user → User.id user = Listing.owner_id listing.
Proof. intros Howner. by apply get_user_Some in Howner as [? _]. Qed.

Lemma if_truthy_Some v s : if_truthy v = Some s ↔ v = Some s ∧ s ≠ "".
Proof.
  unfold if_truthy, truthy_str. destruct v as [s'|]; simpl.
  - destruct (String.eqb_spec s' "") as [->|Hne]; simpl.
    + split; [done|]. by intros [[= <-] ?].
    + split; [by intros [= <-]|]. by intros [[= <-] _].
  - split; [done|]. by intros [? _].
Qed.

Lemma if_truthy_None v : if_truthy v = None ↔ v = None ∨ v = Some "".
Proof.
  unfold if_truthy, truthy_str. destruct v as [s'|]; simpl.
  - destruct (String.eqb_spec s' "") as [->|Hne]; simpl.
    + split; [by right|done].
    + split; [done|]. intros [[=]|[= ->]]. done.
  - split; [by left|done].
Qed.

(** ** Sending a message: the POST branch of [listing_detail] *)

Section send_message.
Variables (listing_id : Z) (request : Request) (w : World).
Variables (sender seller : User.t) (listing : Listing.t) (content : string).
Hypothesis authenticated : current_user w = Some sender.
Hypothesis listing_found : get_listing (db w) listing_id = Some listing.
Hypothesis owner_found : owner (db w) listing = Some seller.
Hypothesis is_post : method request = POST.
Hypothesis has_content : form request !! "content" = Some content.
Hypothesis content_nonempty : content ≠ "".

Lemma listing_detail_send :
  listing_detail listing_id request w =
    if decide (User.id sender ≠ User.id seller) then
      (add_message
         (Message.mk (next_id (Message.id <$> message_table (db w)))
            (User.id sender) (User.id seller) (Listing.id listing)
            content (utcnow request)) w,
       mkResponse (redirect (url_for_listing_detail (Listing.id listing)))
         [("Message sent.", "success")])
    else
      (w, mkResponse
            (render_template
               (listing_detail_html listing
                  (conversation (db w) (Listing.id listing)
                     (User.id sender) (User.id seller))))
            [self_message_warning]).
Proof.
  unfold listing_detail.
  rewrite listing_found, authenticated, owner_found, is_post.
  assert (if_truthy (form request !! "content") = Some content) as ->
    by by apply if_truthy_Some.
  by destruct (decide (User.id sender ≠ User.id seller)).
Qed.

(** C1: when the sender owns the listing, a POST with content is answered
    with the self-message warning on the listing page and the world (so
    the message table) is left as it was; the warning is flashed exactly
    when the sender's id is the owner's id. *)
Theorem self_message_rejected :
  (User.id sender = User.id seller →
     listing_detail listing_id request w =
       (w, mkResponse
             (render_template
                (listing_detail_html listing
                   (conversation (db w) (Listing.id listing)
                      (User.id sender) (User.id seller))))
             [self_message_warning]))
  ∧ (self_message_warning ∈ flashes (listing_detail listing_id request w).2
       ↔ User.id sender = User.id seller)
  ∧ (message_table (db (listing_detail listing_id request w).1)
       = message_table (db w)
       ↔ User.id sender = User.id seller).
Proof.
  rewrite listing_detail_send.
  destruct (decide (User.id sender ≠ User.id seller)) as [Hne|Heq]; simpl.
  - split_and!; [done| |].
    + split; [|done]. intros Hin. apply list_elem_of_singleton in Hin.
      discriminate Hin.
    + split; [|done]. intros Happ.
      apply (f_equal length) in Happ. rewrite length_app in Happ.
      simpl in Happ. lia.
  - apply dec_stable in Heq. split_and!; [done| |done].
    split; [done|]. intros _. apply list_elem_of_singleton. done.
Qed.

(** C2: when the sender does not own the listing, exactly one message is
    appended to the message table, from the sender to the listing's
    owner, about this listing, with the submitted content; the other
    tables and the session are untouched and the response redirects to
    the page of the same listing. *)
Theorem message_sent_to_owner :
  User.id sender ≠ User.id seller →
  ∃ new_message,
    listing_detail listing_id request w =
      (add_message new_message w,
       mkResponse (redirect (url_for_listing_detail listing_id))
         [("Message sent.", "success")])
    ∧ message_table (db (listing_detail listing_id request w).1)
        = message_table (db w) ++ [new_message]
    ∧ user_table (db (listing_detail listing_id request w).1)
        = user_table (db w)
    ∧ listing_table (db (listing_detail listing_id request w).1)
        = listing_table (db w)
    ∧ Message.sender_id new_message = User.id sender
    ∧ Message.receiver_id new_message = User.id seller
    ∧ Message.receiver_id new_message = Listing.owner_id listing
    ∧ Message.listing_id new_message = Listing.id listing
    ∧ Listing.id listing = listing_id
    ∧ Message.content new_message = content
    ∧ Message.timestamp new_message = utcnow request.
Proof.
  intros Hne. rewrite listing_detail_send.
  destruct (decide (User.id sender ≠ User.id seller)); [|done].
  destruct (get_listing_Some _ _ _ listing_found) as [Hid _].
  eexists. simpl. rewrite Hid.
  split_and!; try done. by apply owner_Some in owner_found.
Qed.
End send_message.

(** C9: for an authenticated user, a POST to the listing page whose content
    field is missing or empty is answered exactly as the GET of the same
    page: the world is unchanged and nothing is flashed. *)
Theorem empty_content_post_is_get listing_id request w user :
  current_user w = Some user →
  method request = POST →
  form request !! "content" = None ∨ form request !! "content" = Some "" →
  listing_detail listing_id request w = listing_detail listing_id (as_get request) w
  ∧ (listing_detail listing_id request w).1 = w
  ∧ flashes (listing_detail listing_id request w).2 = [].
Proof.
  intros Hauth Hpost Hcontent. apply if_truthy_None in Hcontent.
  unfold listing_detail. rewrite Hauth, Hpost. simpl.
  destruct (get_listing (db w) listing_id) as [listing|]; [|done].
  destruct (owner (db w) listing) as [seller|]; [|done].
  by rewrite Hcontent.
Qed.

(** ** Logging in *)

Section login.
Context {werkzeug : Werkzeug}.

(** When the attempt under the held username submits a password: a login
    for a username nobody holds and a login for a held username with a
    password the stored hash rejects get the same response, the generic
    notice with a redirect to the login page, and both leave the world as
    it was. *)
Theorem login_failures_indistinguishable w unknown known user password :
  method unknown = POST →
  method known = POST →
  first_user_by_username (db w) (form unknown !! "username") = None →
  first_user_by_username (db w) (form known !! "username") = Some user →
  form known !! "password" = Some password →
  check_password_hash (User.password_hash user) password = false →
  login unknown w = login known w
  ∧ login known w =
      (w, mkResponse (redirect url_for_login) [invalid_login_notice]).
Proof.
  intros Hpost1 Hpost2 Hunknown Hknown Hpassword Hwrong.
  unfold login, check_password.
  rewrite Hpost1, Hpost2, Hunknown, Hknown, Hpassword. simpl.
  by rewrite Hwrong.
Qed.

(** C10: a successful login redirects to the [next] query parameter
    whenever it is supplied and non-empty, whatever its value, and to
    the home page when it is missing or empty. *)
Theorem login_redirects_to_next w request user password :
  method request = POST →
  first_user_by_username (db w) (form request !! "username") = Some user →
  form request !! "password" = Some password →
  check_password_hash (User.password_hash user) password = true →
  (login request w).1 = login_user user w
  ∧ flashes (login request w).2 = [("Logged in successfully.", "success")]
  ∧ (∀ target, args request !! "next" = Some target → target ≠ "" →
       body (login request w).2 = redirect target)
  ∧ (args request !! "next" = None ∨ args request !! "next" = Some "" →
       body (login request w).2 = redirect url_for_index).
Proof.
  intros Hpost Huser Hpassword Hright.
  unfold login, check_password. rewrite Hpost, Huser, Hpassword. simpl.
  rewrite Hright. simpl. split_and!; [done..| |].
  - intros target Hnext Hne.
    assert (if_truthy (args request !! "next") = Some target) as ->
      by by apply if_truthy_Some.
    done.
  - intros Hnext. apply if_truthy_None in Hnext. by rewrite Hnext.
Qed.

(** A login for a held username without a password field ends in an
    uncaught exception, whatever the stored hash; for a username nobody
    holds it is answered with the generic notice, password or not. *)
Lemma login_without_password w request :
  method request = POST →
  form request !! "password" = None →
  login request w =
    match first_user_by_username (db w) (form request !! "username") with
    | Some _ => (w, mkResponse server_error [])
    | None => (w, mkResponse (redirect url_for_login) [invalid_login_notice])
    end.
Proof.
  intros Hpost Hpassword. unfold login, check_password.
  rewrite Hpost, Hpassword. by destruct (first_user_by_username _ _).
Qed.
End login.

(** C7 fails on a login without a password field: for Mallory, whom
    nobody knows, the answer is the generic notice and a redirect; for
    Alice, who is registered, the view raises and the answer is a server
    error.  The two failing attempts are told apart, with any password
    hashing. *)
Theorem login_missing_password_reveals_user (werkzeug : Werkzeug) :
  first_user_by_username (db market) (form login_mallory_no_password !! "username")
    = None
  ∧ first_user_by_username (db market) (form login_alice_no_password !! "username")
    = Some alice
  ∧ login login_mallory_no_password market =
      (market, mkResponse (redirect url_for_login) [invalid_login_notice])
  ∧ login login_alice_no_password market = (market, mkResponse server_error [])
  ∧ login login_mallory_no_password market ≠ login login_alice_no_password market.
Proof.
  assert (login login_mallory_no_password market =
            (market, mkResponse (redirect url_for_login) [invalid_login_notice]))
    as Hmallory by by rewrite login_without_password.
  assert (login login_alice_no_password market = (market, mkResponse server_error []))
    as Halice by by rewrite login_without_password.
  split_and!; [reflexivity|reflexivity|done|done|].
  rewrite Hmallory, Halice. discriminate.
Qed.

(** ** Registering *)

Lemma username_held_iff db username :
  username_held db username ↔
  ∃ name u, username = Some name ∧ u ∈ user_table db ∧ User.username u = name.
Proof.
  unfold username_held, first_user_by_username.
  destruct username as [name|]; simpl.
  - split.
    + intros [u Hu].
      apply (head_filter_Some (λ u, User.username u = name)) in Hu as [? ?].
      by exists name, u.
    + intros (name' & u & [= <-] & Hin & Hname).
      destruct (head _) as [u'|] eqn:Hhead; [done|].
      rewrite head_filter_None in Hhead. by destruct (Hhead u).
  - split; [by intros [? ?]|]. by intros (? & ? & ? & _).
Qed.

Lemma email_held_iff db email :
  email_held db email ↔
  ∃ addr u, email = Some addr ∧ u ∈ user_table db ∧ User.email u = addr.
Proof.
  unfold email_held, first_user_by_email.
  destruct email as [addr|]; simpl.
  - split.
    + intros [u Hu].
      apply (head_filter_Some (λ u, User.email u = addr)) in Hu as [? ?].
      by exists addr, u.
    + intros (addr' & u & [= <-] & Hin & Haddr).
      destruct (head _) as [u'|] eqn:Hhead; [done|].
      rewrite head_filter_None in Hhead. by destruct (Hhead u).
  - split; [by intros [? ?]|]. by intros (? & ? & ? & _).
Qed.

(** ** What one request can do to the database *)

Lemma db_effect_same w : db_effect w w.
Proof. destruct w as [d s]. apply (effect_none (mkWorld d s)). Qed.

Lemma db_effect_login user w : db_effect w (login_user user w).
Proof. apply effect_none. Qed.

Lemma db_effect_logout w : db_effect w (logout_user w).
Proof. apply effect_none. Qed.

Lemma db_effect_register user w : db_effect w (login_user user (add_user user w)).
Proof. apply (effect_user w user). Qed.

Create HintDb effects.

#[local] Hint Resolve db_effect_same db_effect_login db_effect_logout
  db_effect_register : effects.

(** Splitting a view along the tests it makes. *)
Ltac view_cases :=
  repeat (simpl; match goal with
          | |- context [match ?x with _ => _ end] => destruct x eqn:?
          end);
  simpl; auto with effects.

Lemma current_user_Some w user :
  current_user w = Some user →
  get_user (db w) (User.id user) = Some user.
Proof.
  unfold current_user, load_user.
  destruct (session_user_id w) as [uid|]; simpl; [|done].
  intros Hget. by destruct (get_user_Some _ _ _ Hget) as [-> _].
Qed.

Section effects.
Context {werkzeug : Werkzeug}.

Lemma register_effect request w : db_effect w (register request w).1.
Proof. unfold register. view_cases. Qed.

Lemma login_effect request w : db_effect w (login request w).1.
Proof. unfold login. view_cases. Qed.

Lemma listing_detail_effect listing_id request w :
  db_effect w (listing_detail listing_id request w).1.
Proof.
  unfold listing_detail.
  destruct (get_listing (db w) listing_id) as [listing|] eqn:Hlisting;
    [|auto with effects].
  destruct (current_user w) as [user|]; [|auto with effects].
  destruct (owner (db w) listing) as [seller|] eqn:Hseller; [|auto with effects].
  destruct (method request); [auto with effects|].
  destruct (if_truthy (form request !! "content")) as [content|] eqn:Hcontent;
    [|auto with effects].
  destruct (decide (User.id user ≠ User.id seller)) as [Hother|];
    [|auto with effects].
  apply effect_message. unfold sent_to_owner. simpl.
  apply if_truthy_Some in Hcontent as [_ Hcontent].
  apply get_listing_Some in Hlisting as [_ Hlisting].
  apply owner_Some in Hseller.
  split_and!; [done..|]. by exists listing.
Qed.

Lemma create_listing_effect request w : db_effect w (create_listing request w).1.
Proof.
  unfold create_listing, login_required.
  destruct (current_user w) as [user|] eqn:Huser; [|auto with effects].
  destruct (method request); [auto with effects|].
  destruct (if_truthy (form request !! "title")); [|auto with effects].
  destruct (if_truthy (form request !! "author")); [|auto with effects].
  apply effect_listing. unfold owner. simpl.
  apply current_user_Some in Huser. by rewrite Huser.
Qed.

Lemma dispatch_effect request w : db_effect w (dispatch request w).1.
Proof.
  unfold dispatch.
  destruct (rule request), (method request);
    auto using register_effect, login_effect, listing_detail_effect,
      create_listing_effect with effects;
    unfold logout, my_listings, messages_overview, login_required;
    view_cases.
Qed.

Lemma step_effect w w' : step w w' → db_effect w w'.
Proof. intros [request w0|w0 uid]; [apply dispatch_effect|constructor]. Qed.

(** Rows are only ever appended. *)
Lemma db_effect_users w w' :
  db_effect w w' → user_table (db w) `prefix_of` user_table (db w').
Proof. intros [s|u s|l s Hl|m s Hm]; simpl; [done| |done..]. by apply prefix_app_r. Qed.

Lemma db_effect_listings w w' :
  db_effect w w' → listing_table (db w) `prefix_of` listing_table (db w').
Proof. intros [s|u s|l s Hl|m s Hm]; simpl; [done..| |done]. by apply prefix_app_r. Qed.

Lemma rtc_step_users w w' :
  rtc step w w' → user_table (db w) `prefix_of` user_table (db w').
Proof.
  induction 1 as [w|w w1 w2 Hstep _ IH]; [done|].
  etrans; [|exact IH]. by apply db_effect_users, step_effect.
Qed.

Lemma db_effect_messages w w' :
  db_effect w w' → messages_have_content w → messages_have_content w'.
Proof.
  unfold messages_have_content.
  intros [s|u s|l s Hl|m s Hm] Hall; simpl; try done.
  apply Forall_app. split; [done|]. apply Forall_singleton. by destruct Hm.
Qed.
End effects.

(** ** The invariants of the data model *)

Lemma head_app_Some {A} (l k : list A) x : head l = Some x → head (l ++ k) = Some x.
Proof. by destruct l. Qed.

Lemma owner_prefix db db' l :
  user_table db `prefix_of` user_table db' →
  is_Some (owner db l) → is_Some (owner db' l).
Proof.
  intros [k Hk] [u Hu]. exists u. unfold owner, get_user in *.
  rewrite Hk, filter_app. by apply head_app_Some.
Qed.

Lemma sent_to_owner_prefix db db' m :
  listing_table db `prefix_of` listing_table db' →
  sent_to_owner db m → sent_to_owner db' m.
Proof.
  intros [k Hk] (Hcontent & Hother & l & Hin & Hid & Howner).
  split_and!; [done..|]. exists l. rewrite Hk, elem_of_app. auto.
Qed.

Section invariants.
Context {werkzeug : Werkzeug}.

Lemma db_effect_owners w w' :
  db_effect w w' → listings_have_owners w → listings_have_owners w'.
Proof.
  unfold listings_have_owners. intros Heffect Howners.
  pose proof (db_effect_users _ _ Heffect) as Husers.
  assert (Forall (λ l, is_Some (owner (db w') l)) (listing_table (db w)))
    as Hkept.
  { eapply Forall_impl; [exact Howners|]. intros l. by apply owner_prefix. }
  destruct Heffect as [s|u s|l s Hl|m s Hm]; simpl in *; try done.
  apply Forall_app. split; [done|]. by apply Forall_singleton.
Qed.

Lemma db_effect_sent_to_owners w w' :
  db_effect w w' → messages_sent_to_owners w → messages_sent_to_owners w'.
Proof.
  unfold messages_sent_to_owners. intros Heffect Hsent.
  pose proof (db_effect_listings _ _ Heffect) as Hlistings.
  assert (Forall (sent_to_owner (db w')) (message_table (db w))) as Hkept.
  { eapply Forall_impl; [exact Hsent|]. intros m. by apply sent_to_owner_prefix. }
  destruct Heffect as [s|u s|l s Hl|m s Hm]; simpl in *; try done.
  apply Forall_app. split; [done|]. by apply Forall_singleton.
Qed.

(** In every world the application reaches, each listing has its owner in
    the user table, and each message has content and went from another
    user to the owner of the listing it is about. *)
Lemma reachable_invariants w :
  reachable w → listings_have_owners w ∧ messages_sent_to_owners w.
Proof.
  unfold reachable. intros Hrun.
  eapply (rtc_ind_r (λ w, listings_have_owners w ∧ messages_sent_to_owners w));
    [| |exact Hrun].
  - split; apply Forall_nil_2.
  - intros w1 w2 _ Hstep [Howners Hsent]. apply step_effect in Hstep.
    split; [by eapply db_effect_owners|by eapply db_effect_sent_to_owners].
Qed.

(** So on a reachable world the listing page always finds the owner. *)
Lemma reachable_owner_found w listing_id listing :
  reachable w →
  get_listing (db w) listing_id = Some listing →
  is_Some (owner (db w) listing).
Proof.
  intros [Howners _]%reachable_invariants [_ Hin]%get_listing_Some.
  unfold listings_have_owners in Howners. rewrite Forall_forall in Howners.
  by apply Howners.
Qed.
End invariants.

Section register.
Context {werkzeug : Werkzeug}.

Lemma username_held_prefix db db' username :
  user_table db `prefix_of` user_table db' →
  username_held db username → username_held db' username.
Proof.
  intros [k Hk]. rewrite !username_held_iff.
  intros (name & u & ? & Hin & ?). exists name, u.
  rewrite Hk, elem_of_app. auto.
Qed.

Lemma email_held_prefix db db' email :
  user_table db `prefix_of` user_table db' →
  email_held db email → email_held db' email.
Proof.
  intros [k Hk]. rewrite !email_held_iff.
  intros (addr & u & ? & Hin & ?). exists addr, u.
  rewrite Hk, elem_of_app. auto.
Qed.

(** A registration that went through leaves its username and its email
    held. *)
Lemma register_success_held request w :
  registration_successful (register request w).2 →
  username_held (db (register request w).1) (form request !! "username")
  ∧ email_held (db (register request w).1) (form request !! "email").
Proof.
  unfold registration_successful, register.
  destruct (method request); [done|].
  destruct (if_truthy (form request !! "username")) as [name|] eqn:Hname; [|done].
  destruct (if_truthy (form request !! "email")) as [addr|] eqn:Haddr; [|done].
  destruct (if_truthy (form request !! "password")) as [pw|] eqn:Hpw; [|done].
  destruct (decide _); [done|].
  destruct (first_user_by_username _ _); [done|].
  destruct (first_user_by_email _ _); [done|].
  intros _. simpl.
  apply if_truthy_Some in Hname as [-> _]. apply if_truthy_Some in Haddr as [-> _].
  rewrite username_held_iff, email_held_iff. split.
  - eexists name, _. split; [done|].
    split; [simpl; rewrite elem_of_app, list_elem_of_singleton; by right|done].
  - eexists addr, _. split; [done|].
    split; [simpl; rewrite elem_of_app, list_elem_of_singleton; by right|done].
Qed.

Lemma repeats_registration_held w request :
  repeats_registration w request →
  username_held (db w) (form request !! "username")
  ∨ email_held (db w) (form request !! "email").
Proof.
  intros (w0 & first & Hpost & Hok & Hrun & Hsame).
  apply register_success_held in Hok as [Hname Haddr].
  apply rtc_step_users in Hrun.
  destruct Hsame as [-> | ->].
  - left. by eapply username_held_prefix.
  - right. by eapply email_held_prefix.
Qed.

(** C8, as the code has it: a registration whose username or email is
    already held, or repeats one registered earlier in the run, creates no
    user, leaves the world as it was and redirects to the registration
    page.  The notice is the one of the first check that fails: all
    fields are required when one of the three is missing or empty; else
    the passwords do not match when the confirmation differs; else, the
    form being valid, the username is taken when it is held, and
    otherwise the email is registered. *)
Theorem register_duplicate_rejected request w :
  method request = POST →
  username_held (db w) (form request !! "username")
  ∨ email_held (db w) (form request !! "email")
  ∨ repeats_registration w request →
  (register request w).1 = w
  ∧ body (register request w).2 = redirect url_for_register
  ∧ (¬ required_fields_present request →
     flashes (register request w).2 = [all_fields_required_notice])
  ∧ (required_fields_present request →
     form request !! "password" ≠ form request !! "confirm" →
     flashes (register request w).2 = [passwords_mismatch_notice])
  ∧ (valid_registration_form request →
     username_held (db w) (form request !! "username") →
     flashes (register request w).2 = [username_taken_notice])
  ∧ (valid_registration_form request →
     ¬ username_held (db w) (form request !! "username") →
     flashes (register request w).2 = [email_registered_notice])
  ∧ (valid_registration_form request → conflict_error (register request w).2).
Proof.
  intros Hpost Hheld.
  assert (username_held (db w) (form request !! "username")
          ∨ email_held (db w) (form request !! "email")) as Hdup.
  { destruct Hheld as [?|[?|Hrep]]; [by left|by right|].
    by apply repeats_registration_held. }
  clear Hheld.
  unfold valid_registration_form, required_fields_present, conflict_error,
    register, username_held, email_held in *.
  rewrite Hpost.
  assert (∀ s : string, is_Some (Some s)) as Hsome by (by eexists).
  assert (¬ is_Some (@None string)) as Hnone by (by intros [? [=]]).
  destruct (if_truthy (form request !! "username")) as [name|];
    [|split_and!; try done; tauto].
  destruct (if_truthy (form request !! "email")) as [addr|];
    [|split_and!; try done; tauto].
  destruct (if_truthy (form request !! "password")) as [pw|];
    [|split_and!; try done; tauto].
  pose proof (Hsome name). pose proof (Hsome addr). pose proof (Hsome pw).
  destruct (decide _) as [Hne|Heq]; [split_and!; try done; tauto|].
  apply dec_stable in Heq.
  destruct (first_user_by_username _ _) as [u|]; simpl.
  { split_and!; try done; try tauto. intros _ Hfree. by destruct Hfree. }
  destruct (first_user_by_email _ _) as [u|]; simpl.
  { split_and!; try done; tauto. }
  by destruct Hdup as [[? [=]]|[? [=]]].
Qed.
End register.

(** ** The conversation shown on a listing page *)

Lemma participants_pair m a b :
  participants m = {[a; b]} ↔
  (Message.sender_id m = a ∧ Message.receiver_id m = b)
  ∨ (Message.sender_id m = b ∧ Message.receiver_id m = a).
Proof.
  unfold participants. split.
  - intros Heq. set_unfold in Heq.
    pose proof (proj1 (Heq (Message.sender_id m)) (or_introl eq_refl)) as Hs.
    pose proof (proj1 (Heq (Message.receiver_id m)) (or_intror eq_refl)) as Hr.
    pose proof (proj2 (Heq a) (or_introl eq_refl)) as Ha.
    pose proof (proj2 (Heq b) (or_intror eq_refl)) as Hb.
    destruct Hs, Hr, Ha, Hb; auto with congruence.
  - intros [[-> ->]|[-> ->]]; [done|]. apply set_eq. intros x.
    rewrite !elem_of_union, !elem_of_singleton. tauto.
Qed.

#[global] Instance col_le_total {A} (col : A → Z) : Total (col_le col).
Proof. intros r1 r2. unfold col_le. lia. Qed.

#[global] Instance col_le_trans {A} (col : A → Z) : Transitive (col_le col).
Proof. intros r1 r2 r3. unfold col_le. lia. Qed.

#[global] Instance col_ge_total {A} (col : A → Z) : Total (flip (col_le col)).
Proof. intros r1 r2. unfold flip, col_le. lia. Qed.

(** What an authenticated user gets on a GET of a listing page: the
    conversation with the listing's owner. *)
Lemma listing_detail_shows_conversation listing_id request w user listing seller :
  method request = GET →
  current_user w = Some user →
  get_listing (db w) listing_id = Some listing →
  owner (db w) listing = Some seller →
  listing_detail listing_id request w =
    (w, mkResponse
          (render_template
             (listing_detail_html listing
                (conversation (db w) (Listing.id listing)
                   (User.id user) (User.id seller)))) []).
Proof.
  intros Hget Huser Hlisting Hseller. unfold listing_detail.
  by rewrite Hlisting, Huser, Hseller, Hget.
Qed.

(** C4: the conversation query returns the messages of the listing whose
    two ends are the two users, each as often as the table holds it and
    nothing else, by non-decreasing timestamp; when there is no such
    message the result is the empty list. *)
Theorem conversation_exact_sorted db listing_id a b :
  let selected m :=
    Message.listing_id m = listing_id ∧ participants m = {[a; b]} in
  conversation db listing_id a b ≡ₚ filter selected (message_table db)
  ∧ (∀ m, m ∈ conversation db listing_id a b ↔
          m ∈ message_table db ∧ selected m)
  ∧ StronglySorted (λ m1 m2, Message.timestamp m1 ≤ Message.timestamp m2)
      (conversation db listing_id a b)
  ∧ ((∀ m, m ∈ message_table db → ¬ selected m) →
     conversation db listing_id a b = []).
Proof.
  intros selected.
  assert (conversation db listing_id a b ≡ₚ filter selected (message_table db))
    as Hperm.
  { unfold conversation, order_by_asc.
    rewrite merge_sort_Permutation, list_filter_filter.
    erewrite list_filter_iff; [done|].
    intros m. unfold selected. rewrite participants_pair. tauto. }
  split_and!.
  - done.
  - intros m. rewrite Hperm, list_elem_of_filter. tauto.
  - apply (StronglySorted_merge_sort (col_le Message.timestamp)).
  - intros Hnone. apply Permutation_nil_r. rewrite Hperm.
    apply Permutation_nil_r.
    destruct (filter selected (message_table db)) as [|m l] eqn:Hfilter; [done|].
    assert (m ∈ filter selected (message_table db)) as Hm
      by (rewrite Hfilter; left).
    apply list_elem_of_filter in Hm as [Hsel Hin]. by destruct (Hnone m).
Qed.

(** ** The conversations overview *)

Lemma first_latest_snoc_other user_id msgs key m x :
  conversation_key user_id x ≠ key →
  first_latest user_id msgs key m → first_latest user_id (msgs ++ [x]) key m.
Proof.
  intros Hother (before & after & -> & Hkey & Hbefore & Hafter).
  exists before, (after ++ [x]). split_and!; [by rewrite <- app_assoc|done..|].
  intros m' [Hin|Hin%list_elem_of_singleton]%elem_of_app Hm'; [by apply Hafter|].
  by subst m'.
Qed.

Lemma first_latest_snoc_older user_id msgs key m x :
  ¬ Message.timestamp m < Message.timestamp x →
  first_latest user_id msgs key m → first_latest user_id (msgs ++ [x]) key m.
Proof.
  intros Holder (before & after & -> & Hkey & Hbefore & Hafter).
  exists before, (after ++ [x]). split_and!; [by rewrite <- app_assoc|done..|].
  intros m' [Hin|Hin%list_elem_of_singleton]%elem_of_app Hm'; [by apply Hafter|].
  subst m'. lia.
Qed.

Lemma first_latest_snoc_newer user_id msgs m x :
  Message.timestamp m < Message.timestamp x →
  first_latest user_id msgs (conversation_key user_id x) m →
  first_latest user_id (msgs ++ [x]) (conversation_key user_id x) x.
Proof.
  intros Hnewer (before & after & -> & Hkey & Hbefore & Hafter).
  exists (before ++ m :: after), []. split_and!; [done..| |by intros ? ?%elem_of_nil].
  intros m' Hin Hm'. apply elem_of_app in Hin as [Hin|Hin].
  { specialize (Hbefore m' Hin Hm'). lia. }
  apply elem_of_cons in Hin as [->|Hin]; [done|].
  specialize (Hafter m' Hin Hm'). lia.
Qed.

(** The loop invariant of [messages_overview]: a key without an entry has
    no message in the scan so far, and the entry of a key is the first of
    its latest messages. *)
Lemma group_conversations_lookup user_id msgs key :
  match group_conversations user_id msgs !! key with
  | None => ∀ m, m ∈ msgs → conversation_key user_id m ≠ key
  | Some m => first_latest user_id msgs key m
  end.
Proof.
  unfold group_conversations.
  induction msgs as [|x msgs IH] using rev_ind; simpl.
  { rewrite lookup_empty. by intros m ?%elem_of_nil. }
  rewrite foldl_snoc. unfold conversations_step at 1.
  set (conversations := foldl (conversations_step user_id) ∅ msgs) in *.
  destruct (decide (conversation_key user_id x = key)) as [<-|Hother].
  - destruct (conversations !! conversation_key user_id x) as [kept|] eqn:Hkept.
    + destruct (decide (Message.timestamp kept < Message.timestamp x)).
      * rewrite lookup_insert_eq. by apply (first_latest_snoc_newer _ _ kept).
      * rewrite Hkept. by apply first_latest_snoc_older.
    + rewrite lookup_insert_eq. exists msgs, [].
      split_and!; [done..| |by intros ? ?%elem_of_nil].
      intros m' Hin Hm'. by destruct (IH m' Hin).
  - assert (∀ c' : gmap (Z * Z) Message.t,
              (c' = conversations ∨ c' = <[conversation_key user_id x := x]> conversations) →
              c' !! key = conversations !! key) as Hsame.
    { intros c' [->| ->]; [done|]. by rewrite lookup_insert_ne. }
    rewrite Hsame.
    + destruct (conversations !! key) as [kept|].
      * by apply first_latest_snoc_other.
      * intros m [Hin|Hin%list_elem_of_singleton]%elem_of_app; [by apply IH|].
        by subst m.
    + destruct (conversations !! conversation_key user_id x); [|by right].
      destruct (decide _); [by right|by left].
Qed.

(** The overview page shows the grouping of the messages that involve the
    logged-in user. *)
Lemma messages_overview_shows_groups request w user :
  current_user w = Some user →
  messages_overview request w =
    (w, mkResponse
          (render_template
             (messages_html
                (group_conversations (User.id user)
                   (messages_involving (db w) (User.id user))))) []).
Proof. intros Huser. unfold messages_overview, login_required. by rewrite Huser. Qed.

(** C3, as the code has it: the overview has an entry under a key exactly
    when some message the user sent or received is filed under that key;
    the entry is such a message with the greatest timestamp of the key;
    and of several messages sharing that greatest timestamp it is the
    first in scan order. *)
Theorem conversations_keep_first_latest db user_id key :
  let msgs := messages_involving db user_id in
  let conversations := group_conversations user_id msgs in
  (key ∈ dom conversations ↔
     ∃ m, m ∈ message_table db
          ∧ (Message.sender_id m = user_id ∨ Message.receiver_id m = user_id)
          ∧ conversation_key user_id m = key)
  ∧ (∀ m, conversations !! key = Some m →
       m ∈ msgs
       ∧ conversation_key user_id m = key
       ∧ (∀ m', m' ∈ msgs → conversation_key user_id m' = key →
            Message.timestamp m' ≤ Message.timestamp m)
       ∧ ∃ before after,
           msgs = before ++ m :: after
           ∧ ∀ m', m' ∈ before → conversation_key user_id m' = key →
               Message.timestamp m' < Message.timestamp m).
Proof.
  intros msgs conversations.
  pose proof (group_conversations_lookup user_id msgs key) as Hlookup.
  fold conversations in Hlookup. split.
  - rewrite elem_of_dom. split.
    + intros [m Hm]. rewrite Hm in Hlookup.
      destruct Hlookup as (before & after & Hmsgs & Hkey & _).
      assert (m ∈ msgs) as Hin by (rewrite Hmsgs; set_solver).
      apply list_elem_of_filter in Hin as [? ?]. by exists m.
    + intros (m & Hin & Hends & Hkey).
      destruct (conversations !! key) as [kept|]; [done|].
      destruct (Hlookup m); [|done]. by apply list_elem_of_filter.
  - intros m Hm. rewrite Hm in Hlookup.
    destruct Hlookup as (before & after & Hmsgs & Hkey & Hbefore & Hafter).
    split_and!; [rewrite Hmsgs; set_solver|done| |by exists before, after].
    intros m' Hin Hm'. rewrite Hmsgs in Hin.
    apply elem_of_app in Hin as [Hin|Hin].
    { specialize (Hbefore m' Hin Hm'). lia. }
    apply elem_of_cons in Hin as [->|Hin]; [done|]. by apply Hafter.
Qed.

(** ** Searching the catalogue *)




Lemma lower_app s1 s2 : lower (s1 +:+ s2) = lower s1 +:+ lower s2.
Proof. induction s1 as [|c s1 IH]; simpl; [done|]. by rewrite IH. Qed.

Lemma lower_empty s : lower s = "" ↔ s = "".
Proof. by destruct s. Qed.






Lemma filter_if_truthy {A} (P : A → Prop) `{!∀ x, Decision (P x)} (s : string)
    (l : list A) :
  (if truthy_str s then filter P l else l) = filter (λ x, s = "" ∨ P x) l.
Proof.
  unfold truthy_str. destruct (String.eqb_spec s "") as [->|Hne]; simpl.
  - induction l as [|x l IH]; [done|].
    rewrite filter_cons_True by by left. by rewrite <- IH.
  - apply list_filter_iff. intros x. split; [by right|]. by intros [?|?].
Qed.

(** The catalogue page lists the result of the search on its three query
    parameters, each defaulting to the empty string. *)
Lemma listings_shows_search request w :
  ∃ genres conditions,
    listings request w =
      (w, mkResponse
            (render_template
               (listings_html
                  (search_listings (db w)
                     (default "" (args request !! "q"))
                     (default "" (args request !! "genre"))
                     (default "" (args request !! "condition")))
                  genres conditions
                  (default "" (args request !! "q"))
                  (default "" (args request !! "genre"))
                  (default "" (args request !! "condition")))) []).
Proof. by eexists _, _. Qed.


(** X22: the result of the catalogue search does not depend on the case
    the query was typed in, wildcards or not. *)
Lemma search_listings_query_case db q q' genre condition :
  lower q = lower q' →
  search_listings db q genre condition = search_listings db q' genre condition.
Proof.
  intros Hcase. unfold search_listings. rewrite !filter_if_truthy.
  do 3 f_equal. apply list_filter_iff. intros l.
  assert (q = "" ↔ q' = "") as Hempty
    by (rewrite <- (lower_empty q), <- (lower_empty q'); by rewrite Hcase).
  assert (∀ column, ilike column ("%" +:+ q +:+ "%")
                    = ilike column ("%" +:+ q' +:+ "%")) as Hlike.
  { intros column. unfold ilike. by rewrite !lower_app, Hcase. }
  unfold ilike_nullable. rewrite !Hlike.
  destruct (Listing.genre l); simpl; rewrite ?Hlike; tauto.
Qed.

(** The listings come newest first. *)
Lemma search_listings_sorted db q genre condition :
  StronglySorted (λ l1 l2, Listing.created_at l2 ≤ Listing.created_at l1)
    (search_listings db q genre condition).
Proof.
  unfold search_listings, order_by_desc.
  apply (StronglySorted_merge_sort (flip (col_le Listing.created_at))).
Qed.

(** ** Runs of the application *)

Lemma run_steps {werkzeug : Werkzeug} requests w : rtc step w (run requests w).
Proof.
  revert w. induction requests as [|request requests IH]; intros w; simpl.
  - done.
  - eapply rtc_l; [apply step_request|apply IH].
Qed.

Lemma reachable_run {werkzeug : Werkzeug} requests : reachable (run requests initial_world).
Proof. apply run_steps. Qed.

(** ** Every persisted message has content *)

(** C5, as the code has it: in every world the application can reach, each
    message in the table has non-empty content.  (The views test the
    content for emptiness only; they do not trim it.) *)
Theorem persisted_messages_have_content {werkzeug : Werkzeug} w :
  reachable w → messages_have_content w.
Proof.
  unfold reachable. intros Hrun.
  eapply (rtc_ind_r (λ w, messages_have_content w)); [| |exact Hrun].
  - apply Forall_nil_2.
  - intros w1 w2 _ Hstep IH.
    eapply db_effect_messages; [by apply step_effect|done].
Qed.

Lemma persisted_messages_have_content_witness :
  reachable (werkzeug := plain_hash) blank_world
  ∧ messages_have_content blank_world.
Proof.
  split.
  - apply reachable_run.
  - apply (persisted_messages_have_content (werkzeug := plain_hash) blank_world).
    apply reachable_run.
Defined.

(** A reachable world holds a message whose content is blank: trimming it
    leaves nothing. *)
Lemma blank_message_persisted :
  reachable (werkzeug := plain_hash) blank_world
  ∧ ∃ m, m ∈ message_table (db blank_world)
         ∧ trim (Message.content m) = "".
Proof.
  split; [apply reachable_run|].
  exists (Message.mk 1 2 1 1 " " 500). split; [|reflexivity].
  vm_compute. left.
Qed.

(** ** Examples for the theorems above *)

Lemma self_message_rejected_witness :
  listing_detail 1 ask_dune market_as_bob =
    (market_as_bob,
     mkResponse
       (render_template
          (listing_detail_html dune
             (conversation (db market_as_bob) (Listing.id dune)
                (User.id bob) (User.id bob))))
       [self_message_warning]).
Proof.
  refine (proj1 (self_message_rejected 1 ask_dune market_as_bob bob bob dune
                   "Is this available?" _ _ _ _ _ _) _);
    try reflexivity.
  discriminate.
Defined.

Lemma message_sent_to_owner_witness :
  ∃ new_message,
    listing_detail 1 ask_dune market =
      (add_message new_message market,
       mkResponse (redirect (url_for_listing_detail 1)) [("Message sent.", "success")])
    ∧ message_table (db (listing_detail 1 ask_dune market).1)
        = message_table (db market) ++ [new_message]
    ∧ user_table (db (listing_detail 1 ask_dune market).1) = user_table (db market)
    ∧ listing_table (db (listing_detail 1 ask_dune market).1)
        = listing_table (db market)
    ∧ Message.sender_id new_message = User.id alice
    ∧ Message.receiver_id new_message = User.id bob
    ∧ Message.receiver_id new_message = Listing.owner_id dune
    ∧ Message.listing_id new_message = Listing.id dune
    ∧ Listing.id dune = 1
    ∧ Message.content new_message = "Is this available?"
    ∧ Message.timestamp new_message = utcnow ask_dune.
Proof.
  apply (message_sent_to_owner 1 ask_dune market alice bob dune
           "Is this available?"); try reflexivity; discriminate.
Defined.

Lemma empty_content_post_is_get_witness :
  listing_detail 1 post_nothing market = listing_detail 1 (as_get post_nothing) market
  ∧ (listing_detail 1 post_nothing market).1 = market
  ∧ flashes (listing_detail 1 post_nothing market).2 = [].
Proof.
  apply (empty_content_post_is_get 1 post_nothing market alice);
    [reflexivity|reflexivity|left; reflexivity].
Defined.

Lemma login_failures_indistinguishable_witness :
  login (werkzeug := plain_hash) login_mallory market
    = login (werkzeug := plain_hash) login_alice_wrong market
  ∧ login (werkzeug := plain_hash) login_alice_wrong market
    = (market, mkResponse (redirect url_for_login) [invalid_login_notice]).
Proof.
  apply (login_failures_indistinguishable (werkzeug := plain_hash)
           market login_mallory login_alice_wrong alice "sw0rdfish");
    reflexivity.
Defined.

Lemma login_redirects_to_next_witness :
  body (login (werkzeug := plain_hash) login_alice_next market).2
    = redirect "https://elsewhere.example/".
Proof.
  refine (proj1 (proj2 (proj2
            (login_redirects_to_next (werkzeug := plain_hash)
               market login_alice_next alice "swordfish" _ _ _ _)))
            "https://elsewhere.example/" _ _);
    try reflexivity.
  discriminate.
Defined.

Lemma register_duplicate_rejected_witness :
  (register (werkzeug := plain_hash) register_carol_bobs_email market).1 = market
  ∧ flashes (register (werkzeug := plain_hash) register_carol_bobs_email market).2
      = [email_registered_notice].
Proof.
  assert (email_held (db market) (form register_carol_bobs_email !! "email"))
    as Hheld by (by exists bob).
  assert (valid_registration_form register_carol_bobs_email) as Hvalid.
  { unfold valid_registration_form. split_and!; [by eexists..|reflexivity]. }
  assert (¬ username_held (db market) (form register_carol_bobs_email !! "username"))
    as Hfree by (intros [u Hu]; vm_compute in Hu; discriminate Hu).
  destruct (register_duplicate_rejected (werkzeug := plain_hash)
              register_carol_bobs_email market eq_refl
              (or_intror (or_introl Hheld)))
    as (Hsame & _ & _ & _ & _ & Hemail & _).
  split; [exact Hsame|exact (Hemail Hvalid Hfree)].
Defined.

(** Bob's username is held, and a second registration under it whose
    passwords differ is turned down for the mismatch: the notice is
    neither of the duplicate notices. *)
Lemma register_mismatch_not_conflict :
  username_held (db market) (form register_bob_mismatch !! "username")
  ∧ (register (werkzeug := plain_hash) register_bob_mismatch market).2
      = mkResponse (redirect url_for_register) [("Passwords do not match.", "danger")]
  ∧ ¬ conflict_error
        (register (werkzeug := plain_hash) register_bob_mismatch market).2.
Proof.
  split_and!.
  - by exists bob.
  - reflexivity.
  - intros [Hflash|Hflash]; vm_compute in Hflash; discriminate Hflash.
Qed.

(** Of two messages of one conversation with the same timestamp the
    overview keeps the first scanned, so the last one encountered does not
    win. *)
Lemma tie_keeps_first :
  messages_involving (db tie_world) 1 = [tie_first; tie_second]
  ∧ group_conversations 1 (messages_involving (db tie_world) 1) !! (1, 2)
      = Some tie_first
  ∧ ¬ last_encountered_wins 1 (messages_involving (db tie_world) 1).
Proof.
  split_and!; [reflexivity..|].
  intros Hlast.
  refine (Hlast (1, 2) tie_first [] [tie_second] _ _ tie_second _ _ _);
    try reflexivity.
  apply list_elem_of_singleton. reflexivity.
Qed.

Example conversation_in_scan_order :
  conversation (db tie_world) 1 2 1 = [tie_first; tie_second].
Proof. reflexivity. Qed.

(** C6 at the query [_]: LIKE reads the underscore as a wildcard, so Dune
    is returned although neither its title, its author nor its genre
    contains an underscore; the specification's search returns nothing. *)
Theorem search_underscore_matches_all :
  search_listings (db market) "_" "" "" = [dune]
  ∧ matches_search "_" dune = false
  ∧ listListings (db market) "_" "" "" = [].
Proof. split_and!; reflexivity. Qed.

(** * Further properties of the views *)

(** ** Keys and lookups *)

Lemma next_id_fresh ids id : id ∈ ids → id < next_id ids.
Proof.
  unfold next_id. induction ids as [|x ids IH]; simpl.
  - by intros ?%elem_of_nil.
  - intros [->|Hin]%elem_of_cons; [lia|]. specialize (IH Hin). lia.
Qed.

Lemma filter_none {A} (P : A → Prop) `{!∀ x, Decision (P x)} (l : list A) :
  (∀ x, x ∈ l → ¬ P x) → filter P l = [].
Proof.
  intros Hnone. induction l as [|x l IH]; [done|].
  rewrite filter_cons_False by (apply Hnone; left).
  apply IH. intros y Hy. apply Hnone. by right.
Qed.

Lemma truthy_if_truthy v : truthy v = false ↔ if_truthy v = None.
Proof.
  unfold truthy, if_truthy. destruct v as [s|]; simpl; [|done].
  by destruct (truthy_str s).
Qed.

(** The row appended under a fresh key is the one a lookup of that key
    finds. *)
Lemma get_user_appended db_users new_user :
  (∀ u, u ∈ db_users → User.id u ≠ User.id new_user) →
  head (filter (λ u, User.id u = User.id new_user) (db_users ++ [new_user]))
  = Some new_user.
Proof.
  intros Hfresh. rewrite filter_app, (filter_none _ db_users) by done.
  by rewrite filter_cons_True.
Qed.

Lemma not_username_held db name :
  ¬ username_held db (Some name) ↔
  ∀ u, u ∈ user_table db → User.username u ≠ name.
Proof.
  rewrite username_held_iff. split.
  - intros Hfree u Hin Hname. apply Hfree. by exists name, u.
  - intros Hfree (name' & u & [= <-] & Hin & Hname). by apply (Hfree u).
Qed.

Lemma not_email_held db addr :
  ¬ email_held db (Some addr) ↔
  ∀ u, u ∈ user_table db → User.email u ≠ addr.
Proof.
  rewrite email_held_iff. split.
  - intros Hfree u Hin Haddr. apply Hfree. by exists addr, u.
  - intros Hfree (addr' & u & [= <-] & Hin & Haddr). by apply (Hfree u).
Qed.

Lemma get_user_prefix db db' user_id user :
  user_table db `prefix_of` user_table db' →
  get_user db user_id = Some user → get_user db' user_id = Some user.
Proof.
  intros [k Hk] Hget. unfold get_user in *.
  rewrite Hk, filter_app. by apply head_app_Some.
Qed.

Lemma first_user_by_username_prefix db db' username user :
  user_table db `prefix_of` user_table db' →
  first_user_by_username db username = Some user →
  first_user_by_username db' username = Some user.
Proof.
  intros [k Hk]. unfold first_user_by_username.
  destruct username as [name|]; simpl; [|done].
  intros Hfirst. rewrite Hk, filter_app. by apply head_app_Some.
Qed.

(** ** Registering, and logging in afterwards *)

Section registration.
Context {werkzeug : Werkzeug}.
Variables (request : Request) (w : World) (name addr pw : string).
Hypothesis is_post : method request = POST.
Hypothesis has_username : form request !! "username" = Some name.
Hypothesis username_nonempty : name ≠ "".
Hypothesis has_email : form request !! "email" = Some addr.
Hypothesis email_nonempty : addr ≠ "".
Hypothesis has_password : form request !! "password" = Some pw.
Hypothesis password_nonempty : pw ≠ "".
Hypothesis confirmed : form request !! "confirm" = Some pw.
Hypothesis username_free : ¬ username_held (db w) (Some name).
Hypothesis email_free : ¬ email_held (db w) (Some addr).

#[local] Abbreviation registered_user := (registered_user request w name addr pw).

Lemma register_valid :
  register request w =
    (login_user registered_user (add_user registered_user w),
     mkResponse (redirect url_for_index)
       [("Registration successful! Welcome to the book exchange.", "success")]).
Proof.
  unfold register. rewrite is_post, has_username, has_email, has_password.
  rewrite (proj2 (if_truthy_Some (Some name) name)) by done.
  rewrite (proj2 (if_truthy_Some (Some addr) addr)) by done.
  rewrite (proj2 (if_truthy_Some (Some pw) pw)) by done.
  rewrite confirmed.
  destruct (decide (Some pw ≠ Some pw)); [done|].
  unfold username_held, email_held in *.
  destruct (first_user_by_username (db w) (Some name)); [by destruct username_free|].
  destruct (first_user_by_email (db w) (Some addr)); [by destruct email_free|].
  done.
Qed.

Lemma registered_user_fresh u :
  u ∈ user_table (db w) → User.id u ≠ User.id registered_user.
Proof.
  intros Hin. simpl.
  assert (User.id u < next_id (User.id <$> user_table (db w))); [|lia].
  apply next_id_fresh. by apply list_elem_of_fmap_2.
Qed.

Lemma registered_user_found :
  get_user (db (add_user registered_user w)) (User.id registered_user)
  = Some registered_user.
Proof. apply get_user_appended, registered_user_fresh. Qed.

Lemma registered_username_found :
  first_user_by_username (db (add_user registered_user w)) (Some name)
  = Some registered_user.
Proof.
  unfold first_user_by_username. simpl.
  rewrite filter_app, (filter_none _ (user_table (db w)))
    by by apply not_username_held.
  by rewrite filter_cons_True.
Qed.

(** X1: a registration with all fields filled, matching passwords and a
    username and email nobody holds appends one user row with these
    values and the hash of the password under the next free id, leaves
    the other tables alone and logs the new user in. *)
Theorem register_creates_user :
  register request w =
    (login_user registered_user (add_user registered_user w),
     mkResponse (redirect url_for_index)
       [("Registration successful! Welcome to the book exchange.", "success")])
  ∧ user_table (db (register request w).1)
      = user_table (db w) ++ [registered_user]
  ∧ listing_table (db (register request w).1) = listing_table (db w)
  ∧ message_table (db (register request w).1) = message_table (db w)
  ∧ current_user (register request w).1 = Some registered_user
  ∧ (∀ u, u ∈ user_table (db w) → User.id u ≠ User.id registered_user).
Proof.
  rewrite register_valid. split_and!; try done.
  - unfold current_user, load_user. simpl. apply registered_user_found.
  - apply registered_user_fresh.
Qed.

(** X4: once registered, the user can log in with the same username and
    password in every later world, provided the hash verifies the
    password it was made from: the login succeeds, redirects to [next] or
    home, and the session is the registered user's. *)
Theorem register_then_login w' attempt :
  check_password_hash (generate_password_hash (salt request) pw) pw = true →
  rtc step (register request w).1 w' →
  method attempt = POST →
  form attempt !! "username" = Some name →
  form attempt !! "password" = Some pw →
  login attempt w' =
    (login_user registered_user w',
     mkResponse
       (redirect (default url_for_index (if_truthy (args attempt !! "next"))))
       [("Logged in successfully.", "success")])
  ∧ current_user (login attempt w').1 = Some registered_user.
Proof.
  intros Hverifies Hrun Hpost Hname Hpw.
  apply rtc_step_users in Hrun. rewrite register_valid in Hrun. simpl in Hrun.
  assert (user_table (db (add_user registered_user w)) `prefix_of` user_table (db w'))
    as Hprefix by done.
  pose proof (first_user_by_username_prefix _ _ _ _ Hprefix registered_username_found)
    as Hfound.
  pose proof (get_user_prefix _ _ _ _ Hprefix registered_user_found) as Hget.
  unfold login, check_password. rewrite Hpost, Hname, Hpw, Hfound. simpl.
  rewrite Hverifies. split; [done|].
  unfold current_user, load_user. simpl. exact Hget.
Qed.
End registration.

(** X2: [register] checks the form before anything else: with the
    username, the email or the password missing or empty it answers that
    all fields are required, and with all three present but a confirmation
    that differs from the password it answers that the passwords do not
    match; either way the world is as it was and the form is shown
    again. *)
Theorem register_validation {werkzeug : Werkzeug} request w :
  method request = POST →
  (truthy (form request !! "username") = false
   ∨ truthy (form request !! "email") = false
   ∨ truthy (form request !! "password") = false →
   register request w =
     (w, mkResponse (redirect url_for_register)
           [("All fields are required.", "danger")]))
  ∧ (truthy (form request !! "username") = true →
     truthy (form request !! "email") = true →
     truthy (form request !! "password") = true →
     form request !! "password" ≠ form request !! "confirm" →
     register request w =
       (w, mkResponse (redirect url_for_register)
             [("Passwords do not match.", "danger")])).
Proof.
  intros Hpost. unfold register. rewrite Hpost.
  pose proof (truthy_if_truthy (form request !! "username")) as Hname.
  pose proof (truthy_if_truthy (form request !! "email")) as Haddr.
  pose proof (truthy_if_truthy (form request !! "password")) as Hpw.
  destruct (if_truthy (form request !! "username")),
    (if_truthy (form request !! "email")),
    (if_truthy (form request !! "password"));
    (split; [intros [H1|[H2|H3]]|intros H1 H2 H3 Hdiffer]);
    try done;
    try (apply Hname in H1; done); try (apply Haddr in H2; done);
    try (apply Hpw in H3; done);
    try (rewrite (proj2 Hname) in H1 by done; done);
    try (rewrite (proj2 Haddr) in H2 by done; done);
    try (rewrite (proj2 Hpw) in H3 by done; done).
  by destruct (decide _).
Qed.

(** ** The unique columns of the user table *)

Lemma head_filter_unique {A B} `{EqDecision B} (f : A → B) (l : list A) x :
  NoDup (f <$> l) → x ∈ l → head (filter (λ y, f y = f x) l) = Some x.
Proof.
  induction l as [|y l IH]; simpl; [by intros _ ?%elem_of_nil|].
  rewrite NoDup_cons. intros [Hy Hl] [->|Hin]%elem_of_cons.
  - by rewrite filter_cons_True.
  - rewrite filter_cons_False; [by apply IH|].
    intros Heq. apply Hy. rewrite Heq. by apply list_elem_of_fmap_2.
Qed.

Lemma NoDup_fmap_snoc {A B} (f : A → B) (l : list A) x :
  NoDup (f <$> l) → (∀ y, y ∈ l → f y ≠ f x) → NoDup (f <$> l ++ [x]).
Proof.
  intros Hl Hfresh. rewrite fmap_app. apply NoDup_app. split_and!; [done| |].
  - intros b (y & -> & Hy)%list_elem_of_fmap Hb.
    apply list_elem_of_singleton in Hb. by apply (Hfresh y).
  - apply NoDup_singleton.
Qed.

Section unique_users.
Context {werkzeug : Werkzeug}.

(** The only rows a request adds to the user table are those of
    [register], for a username and an email nobody holds. *)
Lemma dispatch_user_table request w :
  user_table (db (dispatch request w).1) = user_table (db w)
  ∨ ∃ name addr pw,
      ¬ username_held (db w) (Some name)
      ∧ ¬ email_held (db w) (Some addr)
      ∧ user_table (db (dispatch request w).1)
        = user_table (db w) ++ [registered_user request w name addr pw].
Proof.
  unfold dispatch.
  destruct (rule request);
    try (left; unfold index, login, logout, listings, listing_detail,
           create_listing, my_listings, messages_overview, login_required;
         by repeat case_match).
  unfold register.
  destruct (method request); [by left|].
    destruct (if_truthy (form request !! "username")) as [name|] eqn:Hname;
      [|by left].
    destruct (if_truthy (form request !! "email")) as [addr|] eqn:Haddr;
      [|by left].
    destruct (if_truthy (form request !! "password")) as [pw|]; [|by left].
    destruct (decide _); [by left|].
    apply if_truthy_Some in Hname as [Hname _].
    apply if_truthy_Some in Haddr as [Haddr _].
    unfold username_held, email_held. rewrite Hname, Haddr.
    destruct (first_user_by_username _ _) eqn:Hu; [by left|].
    destruct (first_user_by_email _ _) eqn:He; [by left|].
    right. exists name, addr, pw. rewrite Hu, He.
    split_and!; [by intros [? [=]]..|done].
Qed.

Lemma step_users_unique w w' : step w w' → users_unique w → users_unique w'.
Proof.
  intros [request w0|w0 uid]; [|done].
  intros (Hids & Hnames & Haddrs). unfold users_unique.
  destruct (dispatch_user_table request w0)
    as [->|(name & addr & pw & Hname & Haddr & ->)]; [done|].
  split_and!; apply NoDup_fmap_snoc; try done.
  - intros u Hu. simpl.
    assert (User.id u < next_id (User.id <$> user_table (db w0))); [|lia].
    apply next_id_fresh. by apply list_elem_of_fmap_2.
  - by apply not_username_held.
  - by apply not_email_held.
Qed.

Lemma reachable_users_unique w : reachable w → users_unique w.
Proof.
  unfold reachable. intros Hrun.
  eapply (rtc_ind_r (λ w, users_unique w)); [| |exact Hrun].
  - split_and!; apply NoDup_nil_2.
  - intros w1 w2 _ Hstep IH. by eapply step_users_unique.
Qed.

(** X3: in every world the application reaches no two users share an id,
    a username or an email, so each user row is the one the lookups by
    its id, by its username and by its email return. *)
Theorem users_unique_and_found w :
  reachable w →
  users_unique w
  ∧ ∀ u, u ∈ user_table (db w) →
      get_user (db w) (User.id u) = Some u
      ∧ first_user_by_username (db w) (Some (User.username u)) = Some u
      ∧ first_user_by_email (db w) (Some (User.email u)) = Some u.
Proof.
  intros Hreach. pose proof (reachable_users_unique w Hreach) as Hunique.
  split; [done|]. destruct Hunique as (Hids & Hnames & Haddrs).
  intros u Hu. split_and!.
  - by apply (head_filter_unique User.id).
  - by apply (head_filter_unique User.username).
  - by apply (head_filter_unique User.email).
Qed.

(** X5: on a reachable world a successful login makes the user found
    under the submitted username the current user. *)
Theorem login_establishes_session w request user password :
  reachable w →
  method request = POST →
  first_user_by_username (db w) (form request !! "username") = Some user →
  form request !! "password" = Some password →
  check_password_hash (User.password_hash user) password = true →
  current_user (login request w).1 = Some user
  ∧ db (login request w).1 = db w.
Proof.
  intros Hreach Hpost Huser Hpassword Hright.
  unfold login, check_password. rewrite Hpost, Huser, Hpassword. simpl.
  rewrite Hright. simpl. split; [|done].
  unfold current_user, load_user. simpl.
  destruct (reachable_users_unique w Hreach) as (Hids & _).
  apply (head_filter_unique User.id); [done|].
  unfold first_user_by_username in Huser.
  destruct (form request !! "username") as [name|]; [|done]. simpl in Huser.
  by apply (head_filter_Some (λ u, User.username u = name)) in Huser as [_ ?].
Qed.
End unique_users.

(** ** Creating a listing *)

Lemma get_listing_appended db_listings new_listing :
  (∀ l, l ∈ db_listings → Listing.id l ≠ Listing.id new_listing) →
  head (filter (λ l, Listing.id l = Listing.id new_listing)
          (db_listings ++ [new_listing]))
  = Some new_listing.
Proof.
  intros Hfresh. rewrite filter_app, (filter_none _ db_listings) by done.
  by rewrite filter_cons_True.
Qed.

(** X6: for a logged-in user, a POST with a non-empty title and author
    appends one listing with the submitted fields, the clock reading and
    the user as owner under the next free id, and redirects to the
    catalogue; afterwards the listing is found under its id and its owner
    is the user. *)
Theorem create_listing_creates request w user title author :
  current_user w = Some user →
  method request = POST →
  form request !! "title" = Some title → title ≠ "" →
  form request !! "author" = Some author → author ≠ "" →
  create_listing request w =
    (add_listing (created_listing request w user title author) w,
     mkResponse (redirect url_for_listings)
       [("Listing created successfully.", "success")])
  ∧ get_listing (db (create_listing request w).1)
      (Listing.id (created_listing request w user title author))
    = Some (created_listing request w user title author)
  ∧ owner (db (create_listing request w).1)
      (created_listing request w user title author)
    = Some user
  ∧ user_table (db (create_listing request w).1) = user_table (db w)
  ∧ message_table (db (create_listing request w).1) = message_table (db w).
Proof.
  intros Huser Hpost Htitle Htitle' Hauthor Hauthor'.
  assert (create_listing request w =
            (add_listing (created_listing request w user title author) w,
             mkResponse (redirect url_for_listings)
               [("Listing created successfully.", "success")])) as ->.
  { unfold create_listing, login_required. rewrite Huser, Hpost, Htitle, Hauthor.
    rewrite (proj2 (if_truthy_Some (Some title) title)) by done.
    by rewrite (proj2 (if_truthy_Some (Some author) author)) by done. }
  split_and!; try done.
  - unfold get_listing. simpl.
    apply (get_listing_appended (listing_table (db w))
             (created_listing request w user title author)).
    intros l Hl. simpl.
    assert (Listing.id l < next_id (Listing.id <$> listing_table (db w))); [|lia].
    apply next_id_fresh. by apply list_elem_of_fmap_2.
  - unfold owner. simpl. by apply current_user_Some.
Qed.

(** X7: a POST to [create_listing] whose title or author is missing or
    empty creates nothing: the world is as it was and the user is sent
    back to the form with a notice. *)
Theorem create_listing_validation request w user :
  current_user w = Some user →
  method request = POST →
  truthy (form request !! "title") = false
  ∨ truthy (form request !! "author") = false →
  create_listing request w =
    (w, mkResponse (redirect url_for_create_listing)
          [("Title and author are required.", "danger")]).
Proof.
  intros Huser Hpost Hmissing.
  unfold create_listing, login_required. rewrite Huser, Hpost.
  rewrite !truthy_if_truthy in Hmissing.
  destruct Hmissing as [-> | ->]; [done|].
  by destruct (if_truthy (form request !! "title")).
Qed.

(** ** What requests cannot do *)

Section safety.
Context {werkzeug : Werkzeug}.

(** X8: a request from a visitor who is not logged in never adds a listing
    or a message, whatever the rule, the method and the form. *)
Theorem anonymous_adds_no_listing_or_message request w :
  current_user w = None →
  listing_table (db (dispatch request w).1) = listing_table (db w)
  ∧ message_table (db (dispatch request w).1) = message_table (db w).
Proof.
  intros Hanonymous.
  unfold dispatch, index, register, login, logout, listings, listing_detail,
    create_listing, my_listings, messages_overview, login_required.
  rewrite Hanonymous. by repeat case_match.
Qed.

(** X9: a GET never changes the database, for any rule and any session. *)
Theorem get_leaves_database request w :
  method request = GET → db (dispatch request w).1 = db w.
Proof.
  intros Hget.
  unfold dispatch, index, register, login, logout, listings, listing_detail,
    create_listing, my_listings, messages_overview, login_required.
  rewrite Hget. by repeat case_match.
Qed.

Lemma db_effect_message_table w w' :
  db_effect w w' → message_table (db w) `prefix_of` message_table (db w').
Proof. intros [s|u s|l s Hl|m s Hm]; simpl; [done..|]. by apply prefix_app_r. Qed.

(** X10: no run of the application removes or rewrites a row: each table
    of an earlier world is a prefix of the same table in every later
    world. *)
Theorem tables_append_only w w' :
  rtc step w w' →
  user_table (db w) `prefix_of` user_table (db w')
  ∧ listing_table (db w) `prefix_of` listing_table (db w')
  ∧ message_table (db w) `prefix_of` message_table (db w').
Proof.
  induction 1 as [w|w w1 w2 Hstep _ (IHu & IHl & IHm)]; [done|].
  apply step_effect in Hstep. split_and!.
  - etrans; [by apply db_effect_users|done].
  - etrans; [by apply db_effect_listings|done].
  - etrans; [by apply db_effect_message_table|done].
Qed.

(** The only row a request adds to the message table is written by the
    POST branch of the listing page, in the name of the current user. *)
Lemma dispatch_message_table request w :
  message_table (db (dispatch request w).1) = message_table (db w)
  ∨ ∃ user m,
      current_user w = Some user
      ∧ method request = POST
      ∧ message_table (db (dispatch request w).1) = message_table (db w) ++ [m]
      ∧ Message.sender_id m = User.id user
      ∧ Message.timestamp m = utcnow request
      ∧ form request !! "content" = Some (Message.content m)
      ∧ rule request = rule_listing_detail (Message.listing_id m).
Proof.
  unfold dispatch.
  destruct (rule request) as [| | | | |listing_id| | | |] eqn:Hrule;
    try (left; unfold index, register, login, logout, listings,
           create_listing, my_listings, messages_overview, login_required;
         by repeat case_match).
  unfold listing_detail.
  destruct (get_listing (db w) listing_id) as [listing|] eqn:Hlisting; [|by left].
  destruct (current_user w) as [user|]; [|by left].
  destruct (owner (db w) listing) as [seller|]; [|by left].
  destruct (method request); [by left|].
  destruct (if_truthy (form request !! "content")) as [content|] eqn:Hcontent;
    [|by left].
  destruct (decide _); [|by left].
  right. eexists user, _. simpl.
  apply if_truthy_Some in Hcontent as [Hcontent _].
  apply get_listing_Some in Hlisting as [-> _].
  by split_and!.
Qed.

(** X11: every message a request stores carries the id of the user who is
    logged in as its sender, the clock reading as its timestamp and the
    submitted content; no request stores a message in another user's
    name. *)
Theorem stored_message_is_from_current_user request w :
  message_table (db (dispatch request w).1) = message_table (db w)
  ∨ ∃ user m,
      current_user w = Some user
      ∧ method request = POST
      ∧ message_table (db (dispatch request w).1) = message_table (db w) ++ [m]
      ∧ Message.sender_id m = User.id user
      ∧ Message.timestamp m = utcnow request
      ∧ form request !! "content" = Some (Message.content m)
      ∧ rule request = rule_listing_detail (Message.listing_id m).
Proof. apply dispatch_message_table. Qed.
End safety.

(** ** Foreign keys *)

Lemma is_user_id_prefix db db' user_id :
  user_table db `prefix_of` user_table db' →
  is_user_id db user_id → is_user_id db' user_id.
Proof.
  intros [k Hk] (u & Hin & Hid). exists u. rewrite Hk, elem_of_app. auto.
Qed.

Lemma owner_is_user_id db l : is_Some (owner db l) → is_user_id db (Listing.owner_id l).
Proof. intros [u Hu]. apply get_user_Some in Hu as [? ?]. by exists u. Qed.

Section foreign_keys.
Context {werkzeug : Werkzeug}.

Lemma step_senders_registered w w' :
  step w w' → senders_registered w → senders_registered w'.
Proof.
  unfold senders_registered. intros Hstep Hsenders.
  pose proof (db_effect_users _ _ (step_effect _ _ Hstep)) as Husers.
  assert (Forall (λ m, is_user_id (db w') (Message.sender_id m))
            (message_table (db w))) as Hkept.
  { eapply Forall_impl; [exact Hsenders|]. intros m. by apply is_user_id_prefix. }
  destruct Hstep as [request w|w uid]; [|done].
  destruct (dispatch_message_table request w)
    as [->|(user & m & Huser & _ & -> & Hsender & _)]; [done|].
  apply Forall_app. split; [done|]. apply Forall_singleton.
  eapply is_user_id_prefix; [done|]. rewrite Hsender.
  apply current_user_Some, get_user_Some in Huser as [_ ?]. by exists user.
Qed.

Lemma reachable_senders_registered w : reachable w → senders_registered w.
Proof.
  unfold reachable. intros Hrun.
  eapply (rtc_ind_r (λ w, senders_registered w)); [| |exact Hrun].
  - apply Forall_nil_2.
  - intros w1 w2 _ Hstep IH. by eapply step_senders_registered.
Qed.

(** X12: in every world the application reaches the foreign keys are
    valid: the owner of every listing is a user, and the sender and the
    receiver of every message are users and its listing is in the listing
    table. *)
Theorem reachable_foreign_keys_valid w : reachable w → foreign_keys_valid w.
Proof.
  intros Hreach.
  destruct (reachable_invariants w Hreach) as [Howners Hsent].
  pose proof (reachable_senders_registered w Hreach) as Hsenders.
  unfold listings_have_owners, messages_sent_to_owners, senders_registered in *.
  rewrite Forall_forall in Howners. rewrite Forall_forall in Hsent.
  rewrite Forall_forall in Hsenders.
  split.
  - intros l Hl. by apply owner_is_user_id, Howners.
  - intros m Hm. destruct (Hsent m Hm) as (_ & _ & l & Hl & Hid & Howner).
    split_and!; [by apply Hsenders| |by exists l].
    rewrite <- Howner. by apply owner_is_user_id, Howners.
Qed.

(** X13: in every world the application reaches nobody has a message to
    themselves, so the owner of a listing who opens its page is shown no
    messages at all, whoever wrote about the listing. *)
Theorem owner_sees_no_messages w listing_id request user listing :
  reachable w →
  method request = GET →
  current_user w = Some user →
  get_listing (db w) listing_id = Some listing →
  Listing.owner_id listing = User.id user →
  listing_detail listing_id request w =
    (w, mkResponse (render_template (listing_detail_html listing [])) []).
Proof.
  intros Hreach Hget Huser Hlisting Hown.
  destruct (reachable_owner_found w listing_id listing Hreach Hlisting)
    as [seller Hseller].
  rewrite (listing_detail_shows_conversation _ _ _ user listing seller) by done.
  apply owner_Some in Hseller as Hid. rewrite Hid, Hown.
  do 4 f_equal. unfold conversation.
  destruct (reachable_invariants w Hreach) as [_ Hsent].
  unfold messages_sent_to_owners in Hsent. rewrite Forall_forall in Hsent.
  rewrite (filter_none _ (filter _ _)); [done|].
  intros m [_ Hm]%list_elem_of_filter.
  destruct (Hsent m Hm) as (_ & Hother & _). lia.
Qed.
End foreign_keys.

(** ** The two conversation views together *)

Lemma elem_of_conversation db listing_id a b m :
  m ∈ conversation db listing_id a b ↔
  m ∈ message_table db
  ∧ Message.listing_id m = listing_id
  ∧ ((Message.sender_id m = a ∧ Message.receiver_id m = b)
     ∨ (Message.sender_id m = b ∧ Message.receiver_id m = a)).
Proof.
  unfold conversation, order_by_asc.
  rewrite merge_sort_Permutation, !list_elem_of_filter. tauto.
Qed.

(** The messages [messages_overview] files under a key are those the
    listing page shows for the listing and the partner. *)
Lemma conversation_key_iff db user_id listing_id partner_id m :
  m ∈ messages_involving db user_id
  ∧ conversation_key user_id m = (listing_id, partner_id)
  ↔ m ∈ conversation db listing_id user_id partner_id.
Proof.
  rewrite elem_of_conversation. unfold messages_involving, conversation_key.
  rewrite list_elem_of_filter.
  destruct (decide (Message.sender_id m = user_id)) as [Hs|Hs]; split.
  - intros [[_ Hin] [= Hl Hp]]. auto.
  - intros (Hin & Hl & [[_ Hr]|[Hs' Hr]]); (split; [auto|]); congruence.
  - intros [[[?|Hr] Hin] [= Hl Hp]]; [done|]. auto.
  - intros (Hin & Hl & [[? _]|[Hs' Hr]]); [done|]. split; [auto|]. congruence.
Qed.

Lemma overview_has_entry db user_id listing_id partner_id m :
  m ∈ conversation db listing_id user_id partner_id →
  is_Some (group_conversations user_id (messages_involving db user_id)
           !! (listing_id, partner_id)).
Proof.
  intros [Hin Hkey]%conversation_key_iff.
  pose proof (group_conversations_lookup user_id (messages_involving db user_id)
                (listing_id, partner_id)) as Hlookup.
  destruct (group_conversations _ _ !! _); [done|]. by destruct (Hlookup m Hin).
Qed.

(** The conversation between two users about a listing is the same list
    whichever of the two asks for it. *)
Lemma conversation_symmetric db listing_id a b :
  conversation db listing_id a b = conversation db listing_id b a.
Proof.
  unfold conversation. f_equal. apply list_filter_iff. intros m. tauto.
Qed.

(** X14: the overview has an entry for a listing and a partner exactly
    when the conversation with that partner about that listing is not
    empty, and the entry is a message of that conversation that none of
    its messages is newer than. *)
Theorem overview_entry_is_latest_of_conversation db user_id listing_id partner_id :
  let conversations :=
    group_conversations user_id (messages_involving db user_id) in
  (is_Some (conversations !! (listing_id, partner_id)) ↔
     conversation db listing_id user_id partner_id ≠ [])
  ∧ ∀ m, conversations !! (listing_id, partner_id) = Some m →
      m ∈ conversation db listing_id user_id partner_id
      ∧ ∀ m', m' ∈ conversation db listing_id user_id partner_id →
          Message.timestamp m' ≤ Message.timestamp m.
Proof.
  intros conversations.
  pose proof (group_conversations_lookup user_id (messages_involving db user_id)
                (listing_id, partner_id)) as Hlookup.
  fold conversations in Hlookup.
  destruct (conversations !! (listing_id, partner_id)) as [kept|].
  - destruct Hlookup as (before & after & Hmsgs & Hkey & Hbefore & Hafter).
    assert (kept ∈ conversation db listing_id user_id partner_id) as Hkept.
    { apply conversation_key_iff. split; [|done].
      rewrite Hmsgs, elem_of_app, elem_of_cons. auto. }
    split.
    + split; [|done]. intros _ Hnil. rewrite Hnil in Hkept.
      by apply elem_of_nil in Hkept.
    + intros m [= <-]. split; [done|].
      intros m' [Hin Hm']%conversation_key_iff. rewrite Hmsgs in Hin.
      apply elem_of_app in Hin as [Hin|Hin].
      { specialize (Hbefore m' Hin Hm'). lia. }
      apply elem_of_cons in Hin as [->|Hin]; [done|]. by apply Hafter.
  - split; [|done]. split; [by intros [? [=]]|].
    intros Hnonempty. destruct (conversation db listing_id user_id partner_id)
      as [|m l] eqn:Hconv; [done|].
    assert (m ∈ conversation db listing_id user_id partner_id) as Hm
      by (rewrite Hconv; left).
    apply conversation_key_iff in Hm as [Hin Hkey]. by destruct (Hlookup m Hin).
Qed.

(** X15: after a message is sent, the sender is still logged in and the
    message is in the conversation their listing page shows; both the
    sender's and the owner's overview have an entry for the conversation. *)
Theorem sent_message_is_shown listing_id request w sender seller listing content :
  current_user w = Some sender →
  get_listing (db w) listing_id = Some listing →
  owner (db w) listing = Some seller →
  method request = POST →
  form request !! "content" = Some content →
  content ≠ "" →
  User.id sender ≠ User.id seller →
  let w' := (listing_detail listing_id request w).1 in
  current_user w' = Some sender
  ∧ (∃ m, m ∈ conversation (db w') listing_id (User.id sender) (User.id seller)
          ∧ Message.content m = content
          ∧ (m ∉ conversation (db w) listing_id (User.id sender) (User.id seller))
          ∧ (∀ m',
               m' ∈ conversation (db w') listing_id (User.id sender) (User.id seller)
               ↔ (m' = m
                  ∨ m' ∈ conversation (db w) listing_id (User.id sender)
                          (User.id seller))))
  ∧ is_Some (group_conversations (User.id sender)
               (messages_involving (db w') (User.id sender))
             !! (listing_id, User.id seller))
  ∧ is_Some (group_conversations (User.id seller)
               (messages_involving (db w') (User.id seller))
             !! (listing_id, User.id sender)).
Proof.
  intros Huser Hlisting Hseller Hpost Hcontent Hnonempty Hother w'.
  pose proof (listing_detail_send listing_id request w sender seller listing
                content Huser Hlisting Hseller Hpost Hcontent Hnonempty) as Hsend.
  destruct (decide (User.id sender ≠ User.id seller)); [|done].
  destruct (get_listing_Some _ _ _ Hlisting) as [Hid _]. rewrite Hid in Hsend.
  subst w'. rewrite Hsend. simpl.
  set (m := Message.mk (next_id (Message.id <$> message_table (db w)))
              (User.id sender) (User.id seller) listing_id content
              (utcnow request)).
  assert (∀ a b m', m' ∈ conversation (db (add_message m w)) listing_id a b ↔
            (m' = m ∧ ((User.id sender = a ∧ User.id seller = b)
                       ∨ (User.id sender = b ∧ User.id seller = a)))
            ∨ m' ∈ conversation (db w) listing_id a b) as Hconv.
  { intros a b m'. rewrite !elem_of_conversation. simpl.
    rewrite elem_of_app, list_elem_of_singleton. split.
    - intros ([Hin| ->] & Hl & Hends); [right; done|left; done].
    - intros [[-> Hends]|(Hin & Hl & Hends)]; [|by auto]. by split_and!; [right|..]. }
  assert (m ∉ message_table (db w)) as Hnew.
  { intros Hin. apply (list_elem_of_fmap_2 Message.id) in Hin.
    apply next_id_fresh in Hin. simpl in Hin. lia. }
  split_and!.
  - done.
  - exists m. split_and!; [apply Hconv; left; auto|done| |].
    + by intros [? _]%elem_of_conversation.
    + intros m'. rewrite Hconv. split; [intros [[-> _]|?]; auto|].
      intros [->|?]; [left|right]; auto.
  - apply (overview_has_entry _ _ _ _ m), Hconv. left. auto.
  - apply (overview_has_entry _ _ _ _ m), Hconv. left. auto.
Qed.

(** ** The pages that list listings *)

(** X16: the home page shows the listings of the table that are newest:
    five of them, or all when there are fewer, newest first, and no
    listing left out is newer than one that is shown. *)
Theorem index_shows_most_recent request w :
  ∃ shown rest,
    index request w =
      (w, mkResponse (render_template (index_html (listing_data <$> shown))) [])
    ∧ shown ++ rest ≡ₚ listing_table (db w)
    ∧ length shown = Nat.min 5 (length (listing_table (db w)))
    ∧ StronglySorted (λ l1 l2, Listing.created_at l2 ≤ Listing.created_at l1) shown
    ∧ ∀ l l', l ∈ shown → l' ∈ rest →
        Listing.created_at l' ≤ Listing.created_at l.
Proof.
  set (sorted := order_by_desc Listing.created_at (listing_table (db w))).
  exists (take 5 sorted), (drop 5 sorted).
  assert (sorted ≡ₚ listing_table (db w)) as Hperm
    by apply merge_sort_Permutation.
  assert (StronglySorted (flip (col_le Listing.created_at))
            (take 5 sorted ++ drop 5 sorted)) as Hsorted.
  { rewrite take_drop.
    apply (StronglySorted_merge_sort (flip (col_le Listing.created_at))). }
  apply StronglySorted_app in Hsorted as (Hcross & Htake & _).
  split_and!.
  - done.
  - by rewrite take_drop.
  - by rewrite length_take, Hperm.
  - exact Htake.
  - intros l l' Hl Hl'. by apply (Hcross l l' Hl Hl').
Qed.

(** X17: [my_listings] shows the listings whose owner is the logged-in
    user, each once per row and no other, newest first. *)
Theorem my_listings_shows_own request w user :
  current_user w = Some user →
  ∃ shown,
    my_listings request w =
      (w, mkResponse (render_template (my_listings_html shown)) [])
    ∧ shown ≡ₚ filter (λ l, Listing.owner_id l = User.id user)
                 (listing_table (db w))
    ∧ (∀ l, l ∈ shown ↔
            l ∈ listing_table (db w) ∧ Listing.owner_id l = User.id user)
    ∧ StronglySorted (λ l1 l2, Listing.created_at l2 ≤ Listing.created_at l1) shown.
Proof.
  intros Huser. unfold my_listings, login_required. rewrite Huser.
  eexists. split; [done|].
  assert (order_by_desc Listing.created_at
            (filter (λ l, Listing.owner_id l = User.id user) (listing_table (db w)))
          ≡ₚ filter (λ l, Listing.owner_id l = User.id user) (listing_table (db w)))
    as Hperm by apply merge_sort_Permutation.
  split_and!.
  - done.
  - intros l. rewrite Hperm, list_elem_of_filter. tauto.
  - apply (StronglySorted_merge_sort (flip (col_le Listing.created_at))).
Qed.

Lemma truthy_str_true s : truthy_str s = true ↔ s ≠ "".
Proof. unfold truthy_str. by destruct (String.eqb_spec s ""). Qed.

(** X18: the genre menu of the catalogue page holds each non-empty genre
    that occurs in the listing table exactly once and nothing else, and
    likewise the condition menu; neither depends on the search. *)
Theorem listings_menus request w :
  ∃ results genres conditions,
    listings request w =
      (w, mkResponse
            (render_template
               (listings_html results genres conditions
                  (default "" (args request !! "q"))
                  (default "" (args request !! "genre"))
                  (default "" (args request !! "condition")))) [])
    ∧ NoDup genres
    ∧ (∀ g, g ∈ genres ↔
            g ≠ "" ∧ ∃ l, l ∈ listing_table (db w) ∧ Listing.genre l = Some g)
    ∧ NoDup conditions
    ∧ (∀ c, c ∈ conditions ↔
            c ≠ "" ∧ ∃ l, l ∈ listing_table (db w) ∧ Listing.condition l = Some c).
Proof.
  eexists _, _, _. split; [reflexivity|].
  split_and!.
  - apply NoDup_filter, NoDup_remove_dups.
  - intros g. by rewrite list_elem_of_filter, elem_of_remove_dups,
      list_elem_of_omap, truthy_str_true.
  - apply NoDup_filter, NoDup_remove_dups.
  - intros c. by rewrite list_elem_of_filter, elem_of_remove_dups,
      list_elem_of_omap, truthy_str_true.
Qed.

(** ** Logging out, and pages that do not exist *)

Lemma login_required_anonymous view request w :
  current_user w = None →
  login_required view request w = (w, login_required_response).
Proof. intros Hanonymous. unfold login_required. by rewrite Hanonymous. Qed.

(** X19: logging out clears the session and leaves the database alone;
    from the world it leaves, the pages behind [@login_required] answer
    with the login redirect and change nothing, whatever is posted. *)
Theorem logout_ends_session request w user :
  current_user w = Some user →
  logout request w =
    (logout_user w,
     mkResponse (redirect url_for_index) [("You have been logged out.", "info")])
  ∧ db (logout request w).1 = db w
  ∧ current_user (logout request w).1 = None
  ∧ ∀ next,
      create_listing next (logout request w).1
        = ((logout request w).1, login_required_response)
      ∧ my_listings next (logout request w).1
        = ((logout request w).1, login_required_response)
      ∧ messages_overview next (logout request w).1
        = ((logout request w).1, login_required_response)
      ∧ logout next (logout request w).1
        = ((logout request w).1, login_required_response).
Proof.
  intros Huser.
  assert (logout request w =
            (logout_user w,
             mkResponse (redirect url_for_index)
               [("You have been logged out.", "info")])) as ->.
  { unfold logout, login_required. by rewrite Huser. }
  split_and!; try done;
    intros next; split_and!; by apply login_required_anonymous.
Qed.

(** X20: for an id in SQLite's integer range (from 0 below 2^63), the
    listing page answers 404 exactly when no row of the listing table has
    the requested id, for every method and session, and then it changes
    nothing. *)
Theorem listing_page_not_found_iff listing_id request w :
  0 ≤ listing_id < 2 ^ 63 →
  (body (listing_detail listing_id request w).2 = not_found ↔
     ∀ l, l ∈ listing_table (db w) → Listing.id l ≠ listing_id)
  ∧ (body (listing_detail listing_id request w).2 = not_found →
     listing_detail listing_id request w = (w, page_not_found)).
Proof.
  intros _.
  pose proof (head_filter_None (λ l, Listing.id l = listing_id)
                (listing_table (db w))) as Hnone.
  unfold listing_detail, get_listing.
  destruct (head _) as [listing|].
  - split.
    + split; [by repeat case_match|].
      intros Habsent. by apply Hnone in Habsent.
    + by repeat case_match.
  - split; [|done]. split; [|done]. intros _. by apply Hnone.
Qed.

Lemma listing_page_not_found_iff_witness :
  (body (listing_detail 7 ask_dune market).2 = not_found ↔
     ∀ l, l ∈ listing_table (db market) → Listing.id l ≠ 7)
  ∧ (body (listing_detail 7 ask_dune market).2 = not_found →
     listing_detail 7 ask_dune market = (market, page_not_found)).
Proof. apply (listing_page_not_found_iff 7 ask_dune market). lia. Defined.

(** ** The filters of the catalogue *)

(** X23: whatever the search string, every listing the catalogue returns
    is a row of the listing table that has the genre asked for, when one
    is, and the condition asked for, when one is; a listing without genre
    or condition is never returned under such a filter. *)
Theorem search_filters_exact db q genre condition l :
  l ∈ search_listings db q genre condition →
  l ∈ listing_table db
  ∧ (genre ≠ "" → Listing.genre l = Some genre)
  ∧ (condition ≠ "" → Listing.condition l = Some condition).
Proof.
  unfold search_listings, order_by_desc.
  rewrite merge_sort_Permutation, !filter_if_truthy, !list_elem_of_filter.
  intros ([?|?] & [?|?] & _ & ?); by split_and!.
Qed.

(** ** Examples for the further properties *)

Lemma reachable_session {werkzeug : Werkzeug} w uid :
  reachable w → reachable (mkWorld (db w) uid).
Proof. intros Hreach. eapply rtc_r; [exact Hreach|apply step_session]. Qed.

Lemma register_creates_user_witness :
  current_user (register (werkzeug := plain_hash) register_alice market_before_alice).1
  = Some alice.
Proof.
  refine (proj1 (proj2 (proj2 (proj2 (proj2
            (register_creates_user (werkzeug := plain_hash)
               register_alice market_before_alice
               "alice" "alice@example.org" "swordfish"
               _ _ _ _ _ _ _ _ _ _))))));
    try reflexivity; try discriminate;
    intros [u Hu]; vm_compute in Hu; discriminate Hu.
Defined.

Lemma register_then_login_witness :
  current_user (login (werkzeug := plain_hash) login_alice market_as_bob).1
  = Some alice.
Proof.
  refine (proj2 (register_then_login (werkzeug := plain_hash)
                   register_alice market_before_alice
                   "alice" "alice@example.org" "swordfish"
                   _ _ _ _ _ _ _ _ _ _
                   market_as_bob login_alice _ _ _ _ _));
    try reflexivity; try discriminate;
    try (intros [u Hu]; vm_compute in Hu; discriminate Hu).
  eapply rtc_l; [apply (step_session _ (Some 1))|]. apply rtc_refl.
Defined.

Lemma register_validation_witness :
  register (werkzeug := plain_hash) register_nameless market =
    (market, mkResponse (redirect url_for_register)
               [("All fields are required.", "danger")]).
Proof.
  apply (proj1 (register_validation (werkzeug := plain_hash)
                  register_nameless market eq_refl)).
  left. reflexivity.
Defined.

Lemma users_unique_and_found_witness :
  first_user_by_email (db market) (Some (User.email alice)) = Some alice.
Proof.
  refine (proj2 (proj2 (proj2 (users_unique_and_found (werkzeug := plain_hash)
                                 market _) alice _))).
  - apply reachable_run.
  - vm_compute. right. left.
Defined.

Lemma login_establishes_session_witness :
  current_user (login (werkzeug := plain_hash) login_alice market_as_bob).1
  = Some alice
  ∧ db (login (werkzeug := plain_hash) login_alice market_as_bob).1
    = db market_as_bob.
Proof.
  apply (login_establishes_session (werkzeug := plain_hash)
           market_as_bob login_alice alice "swordfish");
    try reflexivity.
  apply reachable_session, reachable_run.
Defined.

Lemma create_listing_creates_witness :
  get_listing (db (create_listing create_emma market).1) 2 = Some emma
  ∧ owner (db (create_listing create_emma market).1) emma = Some alice.
Proof.
  destruct (create_listing_creates create_emma market alice "Emma" "Austen")
    as (_ & Hfound & Howner & _); try reflexivity; try discriminate.
  split; [exact Hfound|exact Howner].
Defined.

Lemma create_listing_validation_witness :
  create_listing create_untitled market =
    (market, mkResponse (redirect url_for_create_listing)
               [("Title and author are required.", "danger")]).
Proof.
  apply (create_listing_validation create_untitled market alice);
    [reflexivity|reflexivity|left; reflexivity].
Defined.

Lemma anonymous_adds_no_listing_or_message_witness :
  listing_table
    (db (dispatch (werkzeug := plain_hash) ask_dune (mkWorld (db market) None)).1)
    = listing_table (db market)
  ∧ message_table
      (db (dispatch (werkzeug := plain_hash) ask_dune (mkWorld (db market) None)).1)
    = message_table (db market).
Proof.
  apply (anonymous_adds_no_listing_or_message (werkzeug := plain_hash)
           ask_dune (mkWorld (db market) None)).
  reflexivity.
Defined.

Lemma get_leaves_database_witness :
  db (dispatch (werkzeug := plain_hash) (get rule_logout) market).1 = db market.
Proof.
  apply (get_leaves_database (werkzeug := plain_hash) (get rule_logout) market).
  reflexivity.
Defined.

Lemma tables_append_only_witness :
  user_table (db market_before_alice) `prefix_of` user_table (db market_after_ask)
  ∧ listing_table (db market_before_alice)
      `prefix_of` listing_table (db market_after_ask)
  ∧ message_table (db market_before_alice)
      `prefix_of` message_table (db market_after_ask).
Proof.
  apply (tables_append_only (werkzeug := plain_hash)
           market_before_alice market_after_ask).
  exact (run_steps (werkzeug := plain_hash) [register_alice; ask_dune]
           market_before_alice).
Defined.

Lemma reachable_foreign_keys_valid_witness : foreign_keys_valid market_after_ask.
Proof.
  apply (reachable_foreign_keys_valid (werkzeug := plain_hash) market_after_ask).
  exact (reachable_run (werkzeug := plain_hash)
           [register_bob; create_dune; register_alice; ask_dune]).
Defined.

Lemma owner_sees_no_messages_witness :
  question ∈ message_table (db market_after_ask_as_bob)
  ∧ listing_detail 1 (get (rule_listing_detail 1)) market_after_ask_as_bob =
      (market_after_ask_as_bob,
       mkResponse (render_template (listing_detail_html dune [])) []).
Proof.
  split; [vm_compute; left|].
  apply (owner_sees_no_messages (werkzeug := plain_hash)
           market_after_ask_as_bob 1 (get (rule_listing_detail 1)) bob dune);
    try reflexivity.
  apply reachable_session.
  exact (reachable_run (werkzeug := plain_hash)
           [register_bob; create_dune; register_alice; ask_dune]).
Defined.

Lemma sent_message_is_shown_witness :
  is_Some (group_conversations (User.id bob)
             (messages_involving (db (listing_detail 1 ask_dune market).1) (User.id bob))
           !! (1, User.id alice)).
Proof.
  refine (proj2 (proj2 (proj2
            (sent_message_is_shown 1 ask_dune market alice bob dune
               "Is this available?" _ _ _ _ _ _ _))));
    try reflexivity; discriminate.
Defined.

Lemma my_listings_shows_own_witness :
  ∃ shown,
    my_listings (get rule_my_listings) market_as_bob =
      (market_as_bob, mkResponse (render_template (my_listings_html shown)) [])
    ∧ shown ≡ₚ filter (λ l, Listing.owner_id l = User.id bob)
                 (listing_table (db market_as_bob))
    ∧ (∀ l, l ∈ shown ↔
            l ∈ listing_table (db market_as_bob)
            ∧ Listing.owner_id l = User.id bob)
    ∧ StronglySorted (λ l1 l2, Listing.created_at l2 ≤ Listing.created_at l1) shown.
Proof.
  apply (my_listings_shows_own (get rule_my_listings) market_as_bob bob).
  reflexivity.
Defined.

Lemma logout_ends_session_witness :
  current_user (logout (get rule_logout) market).1 = None
  ∧ db (logout (get rule_logout) market).1 = db market.
Proof.
  destruct (logout_ends_session (get rule_logout) market alice eq_refl)
    as (_ & Hdb & Hnone & _).
  split; [exact Hnone|exact Hdb].
Defined.


Lemma search_listings_query_case_witness :
  search_listings (db market) "HERB%" "" "" = search_listings (db market) "herb%" "" "".
Proof.
  apply (search_listings_query_case (db market) "HERB%" "herb%" "" "").
  reflexivity.
Defined.

Lemma search_filters_exact_witness :
  emma ∈ listing_table (db market_with_emma)
  ∧ ("Novel" ≠ "" → Listing.genre emma = Some "Novel")
  ∧ ("" ≠ "" → Listing.condition emma = Some "").
Proof.
  apply (search_filters_exact (db market_with_emma) "a" "Novel" "" emma).
  vm_compute. left.
Defined.
